(** * llm-gmail-labeler: the label memory store and the classification resolver

    A shallow embedding of [backend/memory_store.py] (class [MemoryStore]) and
    of the classification and feedback code of [backend/agent.py].

    Conventions of the embedding.
    - numpy [float32] arithmetic is idealised as arithmetic on the reals [R];
      an embedding is a [list R].  Rounding is left out, so the properties
      below state no bound that holds on the reals only: over the reals a
      vector divided by its norm plus [1e-8] is shorter than a unit vector,
      in [float32] its norm can be 1 or slightly more.  The one division whose
      divisor can be zero is the cosine of a zero embedding, [0 / 0]: numpy
      yields [nan] there, a value that no comparison accepts; it is [None] in
      an [option R].
    - the two SQLite tables are lists of rows in rowid order; a query that
      goes through the index of a primary key returns its rows in the order of
      the key.
    - a Python [dict] is an association list in insertion order.
    - a raised exception is the [Raise] constructor of [result]; an operation
      that writes returns the store it leaves behind next to its result, so
      that a commit followed by a raise keeps the committed rows.
    - the sentence-transformer model, Python's salted [hash], numpy's random
      generator, the faiss inner-product search, the chat model with its JSON
      decoding and the mail provider are external: they are parameters. *)

From Stdlib Require Import Reals Lra List String Ascii Bool Arith Lia ZArith.
From Stdlib Require Import Sorted Permutation.
Import ListNotations.

Local Open Scope string_scope.
Local Open Scope R_scope.
Local Open Scope list_scope.

(** ** Python values and control *)

Module Py.

(** Exceptions that the modelled code can raise. *)
Inductive exn : Type :=
| NameError (name : string)
| KeyError (key : string)
| ExternalError.

Inductive result (A : Type) : Type :=
| Ok (a : A)
| Raise (e : exn).
Arguments Ok {A} a.
Arguments Raise {A} e.

Definition bind {A B} (r : result A) (k : A -> result B) : result B :=
  match r with
  | Ok a => k a
  | Raise e => Raise e
  end.

(** Truthiness of an [Optional[str]]: [None] and the empty string are falsy. *)
Definition truthy (x : option string) : bool :=
  match x with
  | Some s => negb (s =? "")
  | None => false
  end.

(** [[x for x in xs if x]] *)
Fixpoint truthy_only (xs : list (option string)) : list string :=
  match xs with
  | [] => []
  | Some s :: r => if s =? "" then truthy_only r else s :: truthy_only r
  | None :: r => truthy_only r
  end.

(** [x in xs] for a list or a set of strings. *)
Definition mem (x : string) (xs : list string) : bool :=
  existsb (String.eqb x) xs.

(** A value stored under a key of a message dictionary: the key can be
    missing, or present with value [None], or present with a string. *)
Inductive field : Type :=
| Missing
| Null
| Text (s : string).

(** [d.get(k)] *)
Definition get (f : field) : option string :=
  match f with
  | Text s => Some s
  | _ => None
  end.

(** [d.get(k, default)] *)
Definition get_default (f : field) (default : string) : option string :=
  match f with
  | Missing => Some default
  | Null => None
  | Text s => Some s
  end.

Definition present (f : field) : nat :=
  match f with
  | Missing => 0%nat
  | _ => 1%nat
  end.

(** *** Dictionaries with string keys, in insertion order *)

Section Dict.
Context {V : Type}.

Definition dict := list (string * V).

Fixpoint dict_get (d : dict) (k : string) : option V :=
  match d with
  | [] => None
  | (k', v) :: r => if k' =? k then Some v else dict_get r k
  end.

(** [d[k] = v]: an existing key keeps its position. *)
Fixpoint dict_set (d : dict) (k : string) (v : V) : dict :=
  match d with
  | [] => [(k, v)]
  | (k', v') :: r =>
      if k' =? k then (k', v) :: r else (k', v') :: dict_set r k v
  end.

Definition keys (d : dict) : list string := map fst d.
End Dict.
Arguments dict V : clear implicits.

(** [max(d.items(), key=lambda kv: kv[1])] on a non-empty dictionary: the
    first item, in iteration order, whose value no later item exceeds
    strictly. *)
Fixpoint max_from (best : string * R) (rest : list (string * R)) : string * R :=
  match rest with
  | [] => best
  | kv :: r => if Rgt_dec (snd kv) (snd best) then max_from kv r else max_from best r
  end.

Definition max_item (d : dict R) : option (string * R) :=
  match d with
  | [] => None
  | kv :: r => Some (max_from kv r)
  end.

(** [sorted(d.items(), key=lambda kv: kv[1], reverse=True)]: the items by
    descending value; the sort is stable, so items of equal value keep the
    order they have in the dictionary. *)
Fixpoint insert_desc (kv : string * R) (sorted : list (string * R)) : list (string * R) :=
  match sorted with
  | [] => [kv]
  | kv' :: r =>
      if Rgt_dec (snd kv') (snd kv) then kv' :: insert_desc kv r else kv :: kv' :: r
  end.

Definition sorted_desc (d : dict R) : list (string * R) :=
  fold_right insert_desc [] d.

(** The integer nearest to [x], the even one of the two when [x] lies half
    way between them. *)
Definition round_half_even (x : R) : Z :=
  let n := Int_part x in
  let rest := x - IZR n in
  if Rlt_dec rest (1 / 2) then n
  else if Rlt_dec (1 / 2) rest then (n + 1)%Z
  else if Z.even n then n else (n + 1)%Z.

(** [round(x, ndigits)] *)
Definition round (x : R) (ndigits : nat) : R :=
  IZR (round_half_even (x * 10 ^ ndigits)) / 10 ^ ndigits.

Fixpoint max_from_nat (best : string * nat) (rest : list (string * nat)) : string * nat :=
  match rest with
  | [] => best
  | kv :: r => if (snd best <? snd kv)%nat then max_from_nat kv r else max_from_nat best r
  end.

Definition max_item_nat (d : dict nat) : option (string * nat) :=
  match d with
  | [] => None
  | kv :: r => Some (max_from_nat kv r)
  end.

(** [" \n ".join(parts)] *)
Definition sep : string := String " " (String (ascii_of_nat 10) (String " " EmptyString)).

Definition join_fields (fields : list (option string)) : string :=
  String.concat sep (truthy_only fields).

End Py.
Import Py.

(** ** Vectors (numpy arrays of one dimension) *)

Module Vec.

Definition vec := list R.

(** [np.zeros(n)] *)
Definition zeros (n : nat) : vec := repeat 0 n.

(** [np.dot(u, v)] *)
Fixpoint dot (u v : vec) : R :=
  match u, v with
  | x :: u', y :: v' => x * y + dot u' v'
  | _, _ => 0
  end.

(** [np.linalg.norm(v)] *)
Definition norm (v : vec) : R := sqrt (dot v v).

(** [a * v] *)
Definition scale (a : R) (v : vec) : vec := map (Rmult a) v.

(** [v / s] *)
Definition vdiv (v : vec) (s : R) : vec := map (fun x => x / s) v.

(** [u + v] *)
Fixpoint vadd (u v : vec) : vec :=
  match u, v with
  | x :: u', y :: v' => (x + y) :: vadd u' v'
  | _, _ => []
  end.

(** Sum of the rows of a matrix with [n] columns. *)
Definition vsum (n : nat) (rows : list vec) : vec :=
  fold_right vadd (zeros n) rows.

Definition sum (ws : list R) : R := fold_right Rplus 0 ws.

(** The guard added to every norm before dividing. *)
Definition eps : R := 1e-8.

(** [v / (np.linalg.norm(v) + 1e-8)] *)
Definition normalize (v : vec) : vec := vdiv v (norm v + eps).

(** [np.average(np.vstack(vecs), axis=0, weights=weights)]: the rows are
    multiplied by their weights, summed, and divided by the sum of the
    weights. *)
Definition average (n : nat) (vecs : list vec) (weights : list R) : vec :=
  vdiv (vsum n (map (fun vw => scale (snd vw) (fst vw)) (combine vecs weights)))
       (sum weights).

End Vec.
Import Vec.

(** ** memory_store.py *)

(** The externals of the embedding function of one process.
    - [model]: [self.model]; [None] when loading the sentence transformer
      failed; [encode text = None] when [self.model.encode] raises;
    - [py_hash]: the built-in [hash] on strings, as salted in this process;
    - [rng_normal seed n]: [np.random.default_rng(seed).normal(size=(n,))]. *)
Record Embedder : Type := {
  model : option (string -> option vec);
  py_hash : string -> Z;
  rng_normal : Z -> nat -> vec
}.

(** [self.dim] *)
Definition dim : nat := 384.

(** Row of table [labeled_emails] (and the dataclass of the same fields). *)
Record LabeledEmail : Type := {
  message_id : string;
  subject : option string;
  sender : option string;
  snippet : option string;
  applied_label : string;
  accepted : bool
}.

(** Row of table [rejected_labels]; the autoincrement id is the position in
    the list, [created_at] is not read by any code. *)
Record RejectedLabel : Type := {
  rej_message_id : string;
  rej_subject : option string;
  rej_sender : option string;
  rej_snippet : option string;
  rejected_label : string
}.

(** The state of a [MemoryStore]: both tables, the faiss index (the rows that
    were added to it) and [self.ids] (empty while the attribute is unset). *)
Record MemoryStore : Type := {
  labeled_emails : list LabeledEmail;
  rejected_labels : list RejectedLabel;
  index : list vec;
  ids : list string
}.

(** The name [logger] is looked up in the module globals of memory_store.py,
    which binds only [os], [sqlite3], [logging], the typing names, [np],
    [faiss], [SentenceTransformer], [LabeledEmail] and [MemoryStore]. *)
Definition logger_info : result unit := Raise (NameError "logger").

Section Store.

Variable E : Embedder.

(** [index.search(q, k)] of a flat inner-product index over the given rows:
    pairs of score and row number, the row number [None] standing for -1. *)
Variable faiss_search : list vec -> vec -> nat -> list (R * option nat).

Definition fallback_seed (text : string) : Z :=
  (Z.abs (py_hash E text) mod 2 ^ 32)%Z.

Definition fallback_embed (text : string) : vec :=
  normalize (rng_normal E (fallback_seed text) dim).

Definition _embed (text : string) : vec :=
  if text =? "" then zeros dim
  else
    match model E with
    | Some encode =>
        match encode text with
        | Some embedding => normalize embedding
        | None => fallback_embed text
        end
    | None => fallback_embed text
    end.

Definition embed_text (text : string) : vec := _embed text.

(** [accum.setdefault(label, []).append(x)] *)
Fixpoint setdefault_append {V : Type} (accum : dict (list V)) (label : string) (x : V)
  : dict (list V) :=
  match accum with
  | [] => [(label, [x])]
  | (k, xs) :: r =>
      if k =? label then (k, xs ++ [x]) :: r
      else (k, xs) :: setdefault_append r label x
  end.

Definition row_embedding (r : LabeledEmail) : vec :=
  _embed (join_fields [subject r; sender r; snippet r]).

Definition row_weight (r : LabeledEmail) : R :=
  if accepted r then 5.0 else 1.0.

Fixpoint accumulate (rows : list LabeledEmail) (accum : dict (list (vec * R)))
  : dict (list (vec * R)) :=
  match rows with
  | [] => accum
  | r :: rs =>
      accumulate rs (setdefault_append accum (applied_label r) (row_embedding r, row_weight r))
  end.

(** The pairs of embedding and weight of the rows that bear a label, in the
    order of the rows: the list that [accum] holds for the label. *)
Definition label_entries (l : string) (rows : list LabeledEmail) : list (vec * R) :=
  map (fun r => (row_embedding r, row_weight r))
      (filter (fun r => applied_label r =? l) rows).

Definition centroid_of (vec_weights : list (vec * R)) : vec :=
  let vecs := map fst vec_weights in
  let weights := map snd vec_weights in
  let weights := map (fun w => w / sum weights) weights in
  let weighted_mean := average dim vecs weights in
  let norm := norm weighted_mean + eps in
  vdiv weighted_mean norm.

Fixpoint centroids_of (accum : dict (list (vec * R))) : dict vec :=
  match accum with
  | [] => []
  | (label, []) :: r => centroids_of r
  | (label, vec_weights) :: r => (label, centroid_of vec_weights) :: centroids_of r
  end.

Definition get_label_centroids (st : MemoryStore) : dict vec :=
  match labeled_emails st with
  | [] => []
  | rows => centroids_of (accumulate rows [])
  end.

(** [INSERT ... ON CONFLICT(message_id) DO UPDATE SET ...]: the row of that
    key is overwritten where it stands, a new key is appended. *)
Fixpoint upsert_row (email : LabeledEmail) (rows : list LabeledEmail) : list LabeledEmail :=
  match rows with
  | [] => [email]
  | r :: rs =>
      if message_id r =? message_id email then email :: rs
      else r :: upsert_row email rs
  end.

(** [INSERT OR REPLACE]: the row of that key is deleted and the new row is
    inserted with a fresh rowid. *)
Definition insert_or_replace (row : LabeledEmail) (rows : list LabeledEmail)
  : list LabeledEmail :=
  filter (fun r => negb (message_id r =? message_id row)) rows ++ [row].

Definition _rebuild_index (st : MemoryStore) : MemoryStore :=
  match filter accepted (labeled_emails st) with
  | [] =>
      {| labeled_emails := labeled_emails st; rejected_labels := rejected_labels st;
         index := []; ids := ids st |}
  | rows =>
      {| labeled_emails := labeled_emails st; rejected_labels := rejected_labels st;
         index := map row_embedding rows; ids := map message_id rows |}
  end.

Definition upsert_labeled_email (st : MemoryStore) (email : LabeledEmail) : MemoryStore :=
  _rebuild_index
    {| labeled_emails := upsert_row email (labeled_emails st);
       rejected_labels := rejected_labels st;
       index := index st; ids := ids st |}.

Definition similar (st : MemoryStore) (subject sender snippet : option string) (k : nat)
  : list (string * R) :=
  match index st with
  | [] => []
  | _ =>
      let q := _embed (join_fields [subject; sender; snippet]) in
      let ntotal := List.length (index st) in
      flat_map
        (fun hit : R * option nat =>
           match snd hit with
           | None => []
           | Some idx =>
               match nth_error (ids st) idx with
               | Some msg_id => if msg_id =? "" then [] else [(msg_id, fst hit)]
               | None => []
               end
           end)
        (faiss_search (index st) q (Nat.min k (Nat.max 1 ntotal)))
  end.

Definition get_label_for_message (st : MemoryStore) (message_id' : option string)
  : option string :=
  match message_id' with
  | None => None
  | Some m =>
      match filter (fun r => message_id r =? m) (labeled_emails st) with
      | [] => None
      | r :: _ => Some (applied_label r)
      end
  end.

(** The rows in the order of the index of the primary key [message_id], which
    compares the texts byte by byte. *)
Fixpoint insert_by_id (row : LabeledEmail) (sorted : list LabeledEmail) : list LabeledEmail :=
  match sorted with
  | [] => [row]
  | r :: rs =>
      if String.leb (message_id row) (message_id r) then row :: r :: rs
      else r :: insert_by_id row rs
  end.

Definition order_by_id (rows : list LabeledEmail) : list LabeledEmail :=
  fold_right insert_by_id [] rows.

(** [SELECT ... WHERE message_id IN (...)]: the rows are looked up through the
    index of the primary key, so they come in the order of [message_id], not
    in the order of the list of ids and not in rowid order. *)
Definition get_messages_by_ids (st : MemoryStore) (ids' : list string) : list LabeledEmail :=
  match ids' with
  | [] => []
  | _ => order_by_id (filter (fun r => mem (message_id r) ids') (labeled_emails st))
  end.

Definition get_processed_email_ids (st : MemoryStore) : list string :=
  nodup string_dec (map message_id (labeled_emails st)).

Definition mark_email_processed (st : MemoryStore) (message_id' applied_label' : string)
  (accepted' : bool) : MemoryStore * result unit :=
  let row := {| message_id := message_id'; subject := None; sender := None;
                snippet := None; applied_label := applied_label';
                accepted := accepted' |} in
  let committed := {| labeled_emails := insert_or_replace row (labeled_emails st);
                      rejected_labels := rejected_labels st;
                      index := index st; ids := ids st |} in
  (committed, logger_info).

Definition store_rejected_label (st : MemoryStore) (message_id' : string)
  (subject' sender' snippet' : option string) (rejected_label' : string)
  : MemoryStore * result unit :=
  let row := {| rej_message_id := message_id'; rej_subject := subject';
                rej_sender := sender'; rej_snippet := snippet';
                rejected_label := rejected_label' |} in
  let committed := {| labeled_emails := labeled_emails st;
                      rejected_labels := rejected_labels st ++ [row];
                      index := index st; ids := ids st |} in
  (committed, logger_info).

Definition stored_embedding (r : RejectedLabel) : vec :=
  _embed (join_fields [rej_subject r; rej_sender r; rej_snippet r]).

(** [np.dot(a, b) / (np.linalg.norm(a) * np.linalg.norm(b))]; [None] is [nan],
    the result of [0 / 0] when one of the embeddings is the zero vector. *)
Definition similarity (current_embedding stored_embedding' : vec) : option R :=
  let divisor := norm current_embedding * norm stored_embedding' in
  if Req_dec_T divisor 0 then None
  else Some (dot current_embedding stored_embedding' / divisor).

(** [similarity >= similarity_threshold], false on [nan]. *)
Definition similar_enough (similarity' : option R) (similarity_threshold : R) : bool :=
  match similarity' with
  | Some x => if Rge_dec x similarity_threshold then true else false
  | None => false
  end.

(** [rejected_labels.add(x)] *)
Definition set_add (x : string) (s : list string) : list string :=
  if mem x s then s else s ++ [x].

Fixpoint rejected_loop (current_embedding : vec) (similarity_threshold : R)
  (rows : list RejectedLabel) (rejected : list string) : result (list string) :=
  match rows with
  | [] => Ok rejected
  | r :: rs =>
      if similar_enough (similarity current_embedding (stored_embedding r))
           similarity_threshold
      then
        let rejected := set_add (rejected_label r) rejected in
        bind logger_info
             (fun _ => rejected_loop current_embedding similarity_threshold rs rejected)
      else rejected_loop current_embedding similarity_threshold rs rejected
  end.

Definition get_rejected_labels_for_similar_emails (st : MemoryStore)
  (subject sender snippet : option string) (similarity_threshold : R)
  : result (list string) :=
  match rejected_labels st with
  | [] => Ok []
  | rows =>
      let current_embedding := _embed (join_fields [subject; sender; snippet]) in
      rejected_loop current_embedding similarity_threshold rows []
  end.

(** The set that the loop of [get_rejected_labels_for_similar_emails] collects,
    in the words of its docstring: the labels rejected for stored emails whose
    similarity to the query meets the threshold. *)
Fixpoint similar_rejected_labels (current_embedding : vec) (similarity_threshold : R)
  (rows : list RejectedLabel) : list string :=
  match rows with
  | [] => []
  | r :: rs =>
      if similar_enough (similarity current_embedding (stored_embedding r))
           similarity_threshold
      then rejected_label r :: similar_rejected_labels current_embedding similarity_threshold rs
      else similar_rejected_labels current_embedding similarity_threshold rs
  end.

End Store.

(** ** agent.py *)

(** A message dictionary: the keys the code reads, and how many other keys
    ([threadId], [labelIds], ...) it carries.  [msg_id = None] is a dictionary
    without the key [id]; an id that is present is the provider's string. *)
Record Message : Type := {
  msg_id : option string;
  msg_subject : field;
  msg_from : field;
  msg_snippet : field;
  other_keys : nat
}.

(** [len(msg.keys())] *)
Definition len_keys (msg : Message) : nat :=
  ((match msg_id msg with Some _ => 1 | None => 0 end)
   + present (msg_subject msg) + present (msg_from msg) + present (msg_snippet msg)
   + other_keys msg)%nat.

Inductive Source : Type :=
| centroid
| memory_similar
| llm
| memory.

(** A suggestion dictionary, without the rationale text.  [scores] is what the
    code stores under that key: the ten best scores as rounded percentages in
    [node_classify], the score map itself in the rejection-aware classifier. *)
Record Suggestion : Type := {
  message : Message;
  suggested_label : option string;
  label_id : option string;
  source : option Source;
  scores : dict R
}.

(** An entry of [approvals]: [bool(decision.get("approved", False))] and
    [decision.get("final_label")]. *)
Record Decision : Type := {
  approved : bool;
  final_label : option string
}.

(** What the prompt of the rejection-aware flow is built from. *)
Record Prompt : Type := {
  prompt_subject : option string;
  prompt_sender : option string;
  prompt_snippet : option string;
  prompt_labels : list string;
  prompt_rejected : list string;
  force_different : bool
}.

(** How far the first two tiers take a message: a suggestion, or the hand-over
    to the generative tier with the similar examples found for the prompt. *)
Inductive Tiers : Type :=
| Resolved (s : Suggestion)
| Generative (similar_examples : list LabeledEmail).

(** [x or y] on optional strings. *)
Definition py_or (x y : option string) : option string :=
  if truthy x then x else y.

Definition or_default (x : option string) (default : string) : string :=
  match x with
  | Some s => if s =? "" then default else s
  | None => default
  end.

(** [{lb["name"]: lb["id"] for lb in labels_api}] *)
Definition id_by_name_of (labels_api : list (string * string)) : dict string :=
  fold_left (fun d lb => dict_set d (fst lb) (snd lb)) labels_api [].

Definition query_text (msg : Message) : string :=
  join_fields [get (msg_subject msg); get (msg_from msg); get (msg_snippet msg)].

Definition score01_of (score : R) : R := (score + 1.0) / 2.0.

(** [state.get("score_threshold", 0.40)] *)
Definition score_threshold (state_value : option R) : R :=
  match state_value with
  | Some t => t
  | None => 0.40
  end.

(** [{k: round(v*100, 1) for k, v in sorted(scores.items(),
    key=lambda kv: kv[1], reverse=True)[:10]}] *)
Definition top_scores (scores' : dict R) : dict R :=
  fold_left (fun d kv => dict_set d (fst kv) (round (snd kv * 100) 1))
    (firstn 10 (sorted_desc scores')) [].

Definition build_prompt_with_rejected_context (msg : Message) (labels rejected_suggestions : list string)
  (force_different' : bool) : Prompt :=
  {| prompt_subject := get_default (msg_subject msg) "No Subject";
     prompt_sender := get_default (msg_from msg) "Unknown Sender";
     prompt_snippet := get_default (msg_snippet msg) "";
     prompt_labels := labels;
     prompt_rejected := rejected_suggestions;
     force_different := force_different' |}.

Section Agent.

Variable E : Embedder.
Variable faiss_search : list vec -> vec -> nat -> list (R * option nat).

(** The chat model: [ollama_chat(model=..., messages=[prompt])] followed by
    [response.get("message", {}).get("content", "").strip()], threading the
    state of the model server. *)
Variable LLM : Type.
Variable ollama_chat : LLM -> Prompt -> LLM * result string.

(** The regular-expression unwrapping of a fenced block, [json.loads] and
    [result.get("suggested_label", "").strip()]; [Raise] when any of them
    raises. *)
Variable decode_suggested_label : string -> result string.

(** [gmail.get_message_by_id] *)
Variable gmail_get_message_by_id : string -> result Message.

(** [gmail.list_labels()], reduced to the pairs of name and id; it raises
    when the client is not authenticated or the provider fails. *)
Variable gmail_list_labels : result (list (string * string)).

(** *** node_classify *)

(** The loop of [centroid_scoring] in [node_classify]. *)
Fixpoint score_labels (centroids : dict vec) (rejected_labels' : list string) (q : vec)
  (labels : list string) (score_map : dict R) : dict R :=
  match labels with
  | [] => score_map
  | label :: rest =>
      if mem label rejected_labels' then
        score_labels centroids rejected_labels' q rest score_map
      else
        match dict_get centroids label with
        | None => score_labels centroids rejected_labels' q rest score_map
        | Some c =>
            let score := dot q c in
            let score01 := score01_of score in
            score_labels centroids rejected_labels' q rest (dict_set score_map label score01)
        end
  end.

Definition centroid_scoring (st : MemoryStore) (msg : Message) (labels : list string)
  (threshold : R) : result (option string * dict R) :=
  let centroids := get_label_centroids E st in
  match centroids with
  | [] => Ok (None, [])
  | _ =>
      bind (get_rejected_labels_for_similar_emails E st
              (get_default (msg_subject msg) "")
              (get_default (msg_from msg) "")
              (get_default (msg_snippet msg) "")
              0.7)
        (fun rejected_labels' =>
           let q := embed_text E (query_text msg) in
           let score_map := score_labels centroids rejected_labels' q labels [] in
           match max_item score_map with
           | None => Ok (None, [])
           | Some (best_label, best_score) =>
               if Rge_dec best_score threshold then Ok (Some best_label, score_map)
               else Ok (None, score_map)
           end)
  end.

Fixpoint count_labels (similar_examples : list LabeledEmail) (counts : dict nat) : dict nat :=
  match similar_examples with
  | [] => counts
  | ex :: rest =>
      let lb := applied_label ex in
      if lb =? "" then count_labels rest counts
      else
        let seen := match dict_get counts lb with Some n => n | None => 0%nat end in
        count_labels rest (dict_set counts lb (seen + 1)%nat)
  end.

Definition majority_label_from_similar (similar_examples : list LabeledEmail)
  : option string :=
  match max_item_nat (count_labels similar_examples []) with
  | None => None
  | Some (best, _) => Some best
  end.

(** The second tier of the loop body of [node_classify]. *)
Definition historical_majority (st : MemoryStore) (labels_api : list (string * string))
  (msg : Message) (scores' : dict R) : Tiers :=
  let label_names := map fst labels_api in
  let similar_ids :=
    map fst (similar E faiss_search st (get (msg_subject msg)) (get (msg_from msg))
               (get (msg_snippet msg)) 5) in
  let similar_examples := get_messages_by_ids st similar_ids in
  let majority_lbl := majority_label_from_similar similar_examples in
  if truthy majority_lbl && (match majority_lbl with
                             | Some l => mem l label_names
                             | None => false
                             end)
  then Resolved {| message := msg; suggested_label := majority_lbl;
                   label_id := match majority_lbl with
                               | Some l => dict_get (id_by_name_of labels_api) l
                               | None => None
                               end;
                   source := Some memory_similar; scores := top_scores scores' |}
  else Generative similar_examples.

(** The loop body of [node_classify] for a message that has an id, up to the
    point where the prompt of the generative tier is built. *)
Definition classify_message (st : MemoryStore) (labels_api : list (string * string))
  (state_threshold : option R) (msg : Message) : result Tiers :=
  let label_names := map fst labels_api in
  bind (centroid_scoring st msg label_names (score_threshold state_threshold))
    (fun found =>
       let best_label := fst found in
       let scores' := snd found in
       if truthy best_label then
         Ok (Resolved {| message := msg; suggested_label := best_label;
                         label_id := match best_label with
                                     | Some l => dict_get (id_by_name_of labels_api) l
                                     | None => None
                                     end;
                         source := Some centroid; scores := top_scores scores' |})
       else Ok (historical_majority st labels_api msg scores')).

(** *** node_apply_and_update *)

(** The body of the loop over the suggestions.  Every handler of the source
    logs and goes on, so a raise only ends the statement it interrupts; what
    was committed before it stays.  Applying the label at the mail provider
    does not touch the store. *)
Definition apply_suggestion (approvals : dict Decision) (st : MemoryStore) (s : Suggestion)
  : MemoryStore :=
  match msg_id (message s) with
  | None => st
  | Some msg_id' =>
      let decision := dict_get approvals msg_id' in
      let approved' := match decision with Some d => approved d | None => false end in
      let final_label' :=
        py_or (match decision with Some d => final_label d | None => None end)
              (suggested_label s) in
      let msg :=
        if (len_keys (message s) <=? 1)%nat then
          match gmail_get_message_by_id msg_id' with
          | Ok full_msg => full_msg
          | Raise _ => message s
          end
        else message s in
      let st :=
        if approved' && truthy final_label' then
          upsert_labeled_email E st
            {| message_id := msg_id'; subject := get (msg_subject msg);
               sender := get (msg_from msg); snippet := get (msg_snippet msg);
               applied_label := or_default final_label' ""; accepted := true |}
        else if negb approved' && truthy final_label' then
          fst (store_rejected_label st msg_id'
                 (get_default (msg_subject msg) "") (get_default (msg_from msg) "")
                 (get_default (msg_snippet msg) "") (or_default final_label' ""))
        else st in
      fst (mark_email_processed st msg_id' (or_default final_label' "Uncategorized") approved')
  end.

(** The labels of the provider are fetched inside the outer [try], before the
    loop: when [gmail.list_labels()] raises, the outer handler logs and no
    suggestion is handled. *)
Definition node_apply_and_update (approvals : dict Decision) (st : MemoryStore)
  (suggestions : list Suggestion) : MemoryStore :=
  match gmail_list_labels with
  | Raise _ => st
  | Ok labels_api => fold_left (apply_suggestion approvals) suggestions st
  end.

(** *** _classify_single_email_with_rejected *)

Fixpoint score_all (centroids : dict vec) (q : vec) (labels : list string)
  (score_map : dict R) : dict R :=
  match labels with
  | [] => score_map
  | label :: rest =>
      match dict_get centroids label with
      | None => score_all centroids q rest score_map
      | Some c => score_all centroids q rest (dict_set score_map label (score01_of (dot q c)))
      end
  end.

Fixpoint best_above (threshold : R) (items : list (string * R))
  (best_label : option string) (best_score : R) : option string :=
  match items with
  | [] => best_label
  | (label, score) :: rest =>
      if Rgt_dec score best_score then
        if Rge_dec score threshold then best_above threshold rest (Some label) score
        else best_above threshold rest best_label best_score
      else best_above threshold rest best_label best_score
  end.

Definition centroid_scoring_rejected (st : MemoryStore) (msg : Message)
  (labels : list string) (threshold : R) : option string * dict R :=
  match get_label_centroids E st with
  | [] => (None, [])
  | centroids =>
      let q := embed_text E (query_text msg) in
      let score_map := score_all centroids q labels [] in
      (best_above threshold score_map None 0.0, score_map)
  end.

Definition llm_suggestion (msg : Message) (id_by_name : dict string) (suggested : string)
  : option Suggestion :=
  if suggested =? "" then None
  else Some {| message := msg; suggested_label := Some suggested;
               label_id := dict_get id_by_name suggested;
               source := Some llm; scores := [] |}.

(** The [try] block of the generative tier; every raise inside it is caught
    and the function returns [None]. *)
Definition generative_with_rejected (chat : LLM) (msg : Message) (label_names : list string)
  (id_by_name : dict string) (rejected_suggestions : list string)
  : LLM * option Suggestion :=
  let prompt := build_prompt_with_rejected_context msg label_names rejected_suggestions false in
  match ollama_chat chat prompt with
  | (chat, Raise _) => (chat, None)
  | (chat, Ok content) =>
      match decode_suggested_label content with
      | Raise _ => (chat, None)
      | Ok suggested =>
          if mem suggested rejected_suggestions then
            let alternative_prompt :=
              build_prompt_with_rejected_context msg label_names rejected_suggestions true in
            match ollama_chat chat alternative_prompt with
            | (chat, Raise _) => (chat, None)
            | (chat, Ok content) =>
                match decode_suggested_label content with
                | Raise _ => (chat, None)
                | Ok suggested => (chat, llm_suggestion msg id_by_name suggested)
                end
            end
          else (chat, llm_suggestion msg id_by_name suggested)
      end
  end.

Definition _classify_single_email_with_rejected (st : MemoryStore) (chat : LLM)
  (msg : Message) (label_names : list string) (id_by_name : dict string)
  (rejected_suggestions : list string) (threshold : R) : LLM * option Suggestion :=
  let found := centroid_scoring_rejected st msg label_names threshold in
  let best_label := fst found in
  let score_map := snd found in
  if truthy best_label && negb (match best_label with
                                | Some l => mem l rejected_suggestions
                                | None => false
                                end)
  then (chat, Some {| message := msg; suggested_label := best_label;
                      label_id := match best_label with
                                  | Some l => dict_get id_by_name l
                                  | None => None
                                  end;
                      source := Some centroid; scores := score_map |})
  else
    let memory_label := get_label_for_message st (msg_id msg) in
    if truthy memory_label && negb (match memory_label with
                                    | Some l => mem l rejected_suggestions
                                    | None => false
                                    end)
    then (chat, Some {| message := msg; suggested_label := memory_label;
                        label_id := match memory_label with
                                    | Some l => dict_get id_by_name l
                                    | None => None
                                    end;
                        source := Some memory; scores := [] |})
    else generative_with_rejected chat msg label_names id_by_name rejected_suggestions.

End Agent.

(** *** The loop of node_classify *)

Section Batch.

Variable E : Embedder.
Variable faiss_search : list vec -> vec -> nat -> list (R * option nat).

(** The loop of [node_classify] over the messages of the state: a message
    without id is skipped, the others go through [classify_message]; nothing
    in the loop catches what the centroid tier raises.  The generative tier,
    which catches its own exceptions, is the hand-over of [classify_message]. *)
Fixpoint node_classify (st : MemoryStore) (labels_api : list (string * string))
  (state_threshold : option R) (messages : list Message)
  : result (list (Message * Tiers)) :=
  match messages with
  | [] => Ok []
  | msg :: rest =>
      if truthy (msg_id msg) then
        bind (classify_message E faiss_search st labels_api state_threshold msg)
          (fun outcome =>
             bind (node_classify st labels_api state_threshold rest)
               (fun outcomes => Ok ((msg, outcome) :: outcomes)))
      else node_classify st labels_api state_threshold rest
  end.

End Batch.

(** *** _classify_single_email *)

Module Single.

(** The suggestion dictionary of [_classify_single_email]; [source] is the
    string the code writes, [scores] the ten best scores as rounded
    percentages. *)
Record Suggestion : Type := {
  message : Message;
  suggested_label : option string;
  label_id : option string;
  source : string;
  scores : dict R
}.

(** A suggestion of the first two tiers, or the hand-over to the generative
    tier with the similar examples found for the prompt. *)
Inductive Tiers : Type :=
| Resolved (s : Suggestion)
| Generative (similar_examples : list LabeledEmail).

Section Classify.

Variable E : Embedder.
Variable faiss_search : list vec -> vec -> nat -> list (R * option nat).

Definition centroid_scoring (st : MemoryStore) (msg : Message) (labels : list string)
  (threshold : R) : option string * dict R :=
  match get_label_centroids E st with
  | [] => (None, [])
  | centroids =>
      let q := embed_text E (query_text msg) in
      let score_map := score_all centroids q labels [] in
      match max_item score_map with
      | None => (None, [])
      | Some (best_label, best_score) =>
          if Rge_dec best_score threshold then (Some best_label, score_map)
          else (None, score_map)
      end
  end.

Definition majority_label_from_similar (similar_examples : list LabeledEmail)
  : option string :=
  match similar_examples with
  | [] => None
  | _ =>
      match max_item_nat (count_labels similar_examples []) with
      | None => None
      | Some (best, _) => Some best
      end
  end.

(** [_classify_single_email] up to the point where the prompt of the
    generative tier is built. *)
Definition _classify_single_email (st : MemoryStore) (msg : Message)
  (label_names : list string) (id_by_name : dict string) (threshold : R) : Tiers :=
  let found := centroid_scoring st msg label_names threshold in
  let best_label := fst found in
  let scores' := snd found in
  if truthy best_label then
    Resolved {| message := msg; suggested_label := best_label;
                label_id := match best_label with
                            | Some l => dict_get id_by_name l
                            | None => None
                            end;
                source := "embedding"; scores := top_scores scores' |}
  else
    let similar_ids :=
      map fst (similar E faiss_search st (get (msg_subject msg)) (get (msg_from msg))
                 (get (msg_snippet msg)) 5) in
    let similar_examples := get_messages_by_ids st similar_ids in
    let majority_lbl := majority_label_from_similar similar_examples in
    if truthy majority_lbl && (match majority_lbl with
                               | Some l => mem l label_names
                               | None => false
                               end)
    then Resolved {| message := msg; suggested_label := majority_lbl;
                     label_id := match majority_lbl with
                                 | Some l => dict_get id_by_name l
                                 | None => None
                                 end;
                     source := "memory_similar"; scores := top_scores scores' |}
    else Generative similar_examples.

End Classify.

End Single.

(** ** api_server.py *)

(** What an endpoint answers: its body, or the status of the [HTTPException]
    it raises. *)
Inductive HttpResponse (A : Type) : Type :=
| Http200 (body : A)
| HttpError (status : nat).
Arguments Http200 {A} body.
Arguments HttpError {A} status.

Section ApiServer.

(** [gmail_client.ensure_label(name)], reduced to the label id it returns, and
    [gmail_client.apply_label(msg_id, label_id)]. *)
Variable gmail_ensure_label : string -> result string.
Variable gmail_apply_label : string -> string -> result bool.

(** The loop of [apply_approved_labels] over [request.approvals.items()]; a
    raise leaves the loop with the store as committed so far. *)
Fixpoint apply_approved_loop (approvals : dict Decision) (st : MemoryStore)
  (applied_count : nat) : MemoryStore * result nat :=
  match approvals with
  | [] => (st, Ok applied_count)
  | (email_id, decision) :: rest =>
      if approved decision then
        match final_label decision with
        | Some label_name =>
            if label_name =? "" then apply_approved_loop rest st applied_count
            else
              match gmail_ensure_label label_name with
              | Raise e => (st, Raise e)
              | Ok label_id' =>
                  match gmail_apply_label email_id label_id' with
                  | Raise e => (st, Raise e)
                  | Ok _ =>
                      match mark_email_processed st email_id label_name true with
                      | (st, Raise e) => (st, Raise e)
                      | (st, Ok _) => apply_approved_loop rest st (applied_count + 1)
                      end
                  end
              end
        | None => apply_approved_loop rest st applied_count
        end
      else apply_approved_loop rest st applied_count
  end.

(** [POST /api/suggestions/apply]: the body is [applied_count]; every
    exception becomes status 500. *)
Definition apply_approved_labels (approvals : dict Decision) (st : MemoryStore)
  : MemoryStore * HttpResponse nat :=
  match apply_approved_loop approvals st 0 with
  | (st, Ok applied_count) => (st, Http200 applied_count)
  | (st, Raise _) => (st, HttpError 500)
  end.

(** [GET /api/stats], on the rows of [labeled_emails]: [total_processed],
    [approved] and [rejected]. *)
Definition get_stats (st : MemoryStore) : nat * nat * nat :=
  let total_emails := List.length (labeled_emails st) in
  let approved_emails := List.length (filter accepted (labeled_emails st)) in
  (total_emails, approved_emails, (total_emails - approved_emails)%nat).

End ApiServer.

(** ** Stand-ins for the externals, and small stores to run the code on *)

(** The vector [(a, 0, ..., 0)] of [dim] components. *)
Definition basis (a : R) : vec := a :: zeros (dim - 1).

(** A sentence transformer that encodes every text as the first basis vector. *)
Definition stub_model : Embedder :=
  {| model := Some (fun _ => Some (basis 1));
     py_hash := fun _ => 0%Z;
     rng_normal := fun _ n => zeros n |}.

(** A process without the sentence transformer whose [hash] returns [salt] on
    every string, with a generator that draws [(1, 0, ...)] from seed 0 and
    [(-1, 0, ...)] from any other seed. *)
Definition salted (salt : Z) : Embedder :=
  {| model := None;
     py_hash := fun _ => salt;
     rng_normal := fun seed n => (if (seed =? 0)%Z then 1 else -1) :: zeros (n - 1) |}.

Definition empty_search : list vec -> vec -> nat -> list (R * option nat) :=
  fun _ _ _ => [].

Definition no_gmail : string -> result Message :=
  fun _ => Raise ExternalError.

(** A chat model that answers every prompt with the text [A]; its state counts
    the calls. *)
Definition stubborn_chat : nat -> Prompt -> nat * result string :=
  fun calls _ => (S calls, Ok "A").

Definition decode_plain : string -> result string := fun content => Ok content.

Definition empty_store : MemoryStore :=
  {| labeled_emails := []; rejected_labels := []; index := []; ids := [] |}.

Definition processed_A : LabeledEmail :=
  {| message_id := "m0"; subject := None; sender := None; snippet := None;
     applied_label := "A"; accepted := true |}.

(** The store after [mark_email_processed("m0", "A", True)] on an empty one. *)
Definition store_A : MemoryStore :=
  {| labeled_emails := [processed_A]; rejected_labels := []; index := []; ids := [] |}.

Definition invoice : LabeledEmail :=
  {| message_id := "m1"; subject := Some "Invoice 42"; sender := Some "billing@shop.example";
     snippet := Some "Your invoice is attached"; applied_label := "Invoices";
     accepted := true |}.

Definition invoice_rejection : RejectedLabel :=
  {| rej_message_id := "m1"; rej_subject := Some "Invoice 42"; rej_sender := None;
     rej_snippet := None; rejected_label := "Spam" |}.

Definition store_with_rejection : MemoryStore :=
  {| labeled_emails := []; rejected_labels := [invoice_rejection]; index := []; ids := [] |}.

Definition blank_message : Message :=
  {| msg_id := Some "m9"; msg_subject := Missing; msg_from := Null; msg_snippet := Text "";
     other_keys := 0 |}.

Definition invoice_message : Message :=
  {| msg_id := Some "m1"; msg_subject := Text "Invoice 42"; msg_from := Missing;
     msg_snippet := Missing; other_keys := 2 |}.

Definition suggestion_for (msg : Message) (label : string) : Suggestion :=
  {| message := msg; suggested_label := Some label; label_id := None;
     source := Some llm; scores := [] |}.

Definition reject_m1 : dict Decision :=
  [("m1", {| approved := false; final_label := None |})].

Definition approve_m1 : dict Decision :=
  [("m1", {| approved := true; final_label := Some "Invoices" |})].

(** A mail provider that knows every label under the id [Label_1] and accepts
    every application of a label. *)
Definition gmail_ensure_ok : string -> result string := fun _ => Ok "Label_1".

Definition gmail_apply_ok : string -> string -> result bool := fun _ _ => Ok true.

(** An index search that reports the first row of the index, when there is
    one, with score 1. *)
Definition first_row_search : list vec -> vec -> nat -> list (R * option nat) :=
  fun rows _ k =>
    match rows, k with
    | _ :: _, S _ => [(1, Some 0%nat)]
    | _, _ => []
    end.

(** The labels of the mail provider: one label, named [A]. *)
Definition labels_A : list (string * string) := [("A", "Label_1")].

(** A provider that lists these labels, and one that is not authenticated. *)
Definition gmail_lists_A : result (list (string * string)) := Ok labels_A.

Definition gmail_unauthenticated : result (list (string * string)) := Raise ExternalError.

(** A second example of label [Invoices], with text, that was not accepted. *)
Definition invoice_pending : LabeledEmail :=
  {| message_id := "m2"; subject := Some "Invoice 43"; sender := Some "billing@shop.example";
     snippet := None; applied_label := "Invoices"; accepted := false |}.

Definition store_invoices : MemoryStore :=
  {| labeled_emails := [invoice; invoice_pending]; rejected_labels := [];
     index := []; ids := [] |}.

(** A stored rejection of the label [Invoices] for a message with the text of
    the accepted invoice, a store that holds both, and a further message with
    that text. *)
Definition invoice_declined : RejectedLabel :=
  {| rej_message_id := "m3"; rej_subject := Some "Invoice 42";
     rej_sender := Some "billing@shop.example";
     rej_snippet := Some "Your invoice is attached"; rejected_label := "Invoices" |}.

Definition invoice_again : Message :=
  {| msg_id := Some "m4"; msg_subject := Text "Invoice 42";
     msg_from := Text "billing@shop.example";
     msg_snippet := Text "Your invoice is attached"; other_keys := 2 |}.

Definition store_declined : MemoryStore :=
  {| labeled_emails := [invoice]; rejected_labels := [invoice_declined];
     index := []; ids := [] |}.

Definition labels_Invoices : list (string * string) := [("Invoices", "Label_7")].

(** A table in which the accepted invoice [m1] was written before the
    processed email [m0]. *)
Definition store_tie : MemoryStore :=
  {| labeled_emails := [invoice; processed_A]; rejected_labels := [];
     index := []; ids := [] |}.

(** * Properties *)

(** ** Dictionaries *)

Lemma dict_get_set {V : Type} (d : dict V) (k k' : string) (v : V) :
  dict_get (dict_set d k v) k' = if k =? k' then Some v else dict_get d k'.
Proof.
  induction d as [|[k0 v0] d IH]; simpl.
  - reflexivity.
  - destruct (k0 =? k) eqn:Hk; simpl.
    + apply String.eqb_eq in Hk; subst k0.
      destruct (k =? k'); reflexivity.
    + destruct (k0 =? k') eqn:Hk'.
      * apply String.eqb_eq in Hk'; subst k0.
        rewrite String.eqb_sym in Hk. rewrite Hk. reflexivity.
      * apply IH.
Qed.

Lemma dict_in_get {V : Type} (d : dict V) (k : string) (v : V) :
  In (k, v) d -> exists v', dict_get d k = Some v'.
Proof.
  induction d as [|[k0 v0] d IH]; simpl; intros H.
  - contradiction.
  - destruct (k0 =? k) eqn:Hk.
    + eauto.
    + destruct H as [H|H].
      * inversion H; subst. rewrite String.eqb_refl in Hk. discriminate.
      * auto.
Qed.

Lemma dict_set_in {V : Type} (d : dict V) (k k' : string) (v v' : V) :
  In (k', v') (dict_set d k v) -> In (k', v') d \/ (k' = k /\ v' = v).
Proof.
  induction d as [|[k0 v0] d IH]; simpl; intros H.
  - destruct H as [H|[]]. inversion H; auto.
  - destruct (k0 =? k) eqn:Hk.
    + apply String.eqb_eq in Hk; subst k0.
      destruct H as [H|H]; [inversion H; auto | auto].
    + destruct H as [H|H]; [auto|].
      destruct (IH H) as [H'|H']; auto.
Qed.

Lemma max_from_in (best : string * R) (rest : list (string * R)) :
  In (max_from best rest) (best :: rest).
Proof.
  revert best; induction rest as [|kv r IH]; intros best; simpl.
  - auto.
  - destruct (Rgt_dec (snd kv) (snd best)).
    + destruct (IH kv) as [H|H]; auto.
    + destruct (IH best) as [H|H]; auto.
Qed.

Lemma max_item_in (d : dict R) (kv : string * R) :
  max_item d = Some kv -> In kv d.
Proof.
  destruct d as [|kv0 r]; simpl; intros H; [discriminate|].
  inversion H; subst. apply max_from_in.
Qed.




Lemma mem_true_iff (x : string) (xs : list string) :
  mem x xs = true <-> In x xs.
Proof.
  unfold mem. rewrite existsb_exists. split.
  - intros [y [Hy Heq]]. apply String.eqb_eq in Heq. subst; assumption.
  - intros H. exists x. split; [assumption | apply String.eqb_refl].
Qed.

(** ** The two tables *)

Lemma upsert_row_idempotent (email : LabeledEmail) (rows : list LabeledEmail) :
  upsert_row email (upsert_row email rows) = upsert_row email rows.
Proof.
  induction rows as [|r rs IH]; simpl.
  - rewrite String.eqb_refl. reflexivity.
  - destruct (message_id r =? message_id email) eqn:Hr; simpl.
    + rewrite String.eqb_refl. reflexivity.
    + rewrite Hr, IH. reflexivity.
Qed.

Lemma upsert_row_ids (email : LabeledEmail) (rows : list LabeledEmail) :
  map message_id (upsert_row email rows)
  = if mem (message_id email) (map message_id rows) then map message_id rows
    else map message_id rows ++ [message_id email].
Proof.
  unfold mem.
  induction rows as [|r rs IH]; simpl.
  - reflexivity.
  - rewrite (String.eqb_sym (message_id email)).
    destruct (message_id r =? message_id email) eqn:Hr; simpl.
    + apply String.eqb_eq in Hr. rewrite Hr. reflexivity.
    + rewrite IH. destruct (existsb _ _); reflexivity.
Qed.

Lemma upsert_row_NoDup (email : LabeledEmail) (rows : list LabeledEmail) :
  NoDup (map message_id rows) -> NoDup (map message_id (upsert_row email rows)).
Proof.
  intros H. rewrite upsert_row_ids.
  destruct (mem (message_id email) (map message_id rows)) eqn:Hm; [assumption|].
  apply NoDup_app; [assumption | repeat constructor; intros [] |].
  intros x Hx [Hx'|[]]. subst x.
  apply mem_true_iff in Hx. congruence.
Qed.

Lemma filter_absent (k : string) (rows : list LabeledEmail) :
  ~ In k (map message_id rows) ->
  filter (fun r => message_id r =? k) rows = [].
Proof.
  induction rows as [|r rs IH]; simpl; intros H; [reflexivity|].
  destruct (message_id r =? k) eqn:Hr.
  - apply String.eqb_eq in Hr. exfalso. apply H. left. exact Hr.
  - apply IH. intros Habs. apply H. right. exact Habs.
Qed.

Lemma upsert_row_lookup (email : LabeledEmail) (rows : list LabeledEmail) :
  NoDup (map message_id rows) ->
  filter (fun r => message_id r =? message_id email) (upsert_row email rows) = [email].
Proof.
  induction rows as [|r rs IH]; simpl; intros H.
  - rewrite String.eqb_refl. reflexivity.
  - inversion H as [|? ? Hnotin Hrs]; subst.
    destruct (message_id r =? message_id email) eqn:Hr; simpl.
    + rewrite String.eqb_refl. f_equal.
      apply String.eqb_eq in Hr. rewrite Hr in Hnotin.
      apply filter_absent. exact Hnotin.
    + rewrite Hr. apply IH. assumption.
Qed.

Lemma insert_or_replace_lookup (row : LabeledEmail) (rows : list LabeledEmail) :
  filter (fun r => message_id r =? message_id row) (insert_or_replace row rows) = [row].
Proof.
  unfold insert_or_replace. rewrite filter_app. simpl.
  rewrite String.eqb_refl.
  replace (filter _ (filter _ rows)) with (@nil LabeledEmail); [reflexivity|].
  induction rows as [|r rs IH]; simpl; [reflexivity|].
  destruct (message_id r =? message_id row) eqn:Hr; simpl.
  - exact IH.
  - rewrite Hr. exact IH.
Qed.

Lemma insert_or_replace_ids (row : LabeledEmail) (rows : list LabeledEmail) (m : string) :
  In m (map message_id (insert_or_replace row rows))
  <-> In m (map message_id rows) \/ m = message_id row.
Proof.
  unfold insert_or_replace. rewrite map_app, in_app_iff. simpl. split.
  - intros [H|[H|[]]]; [left | right; auto].
    apply in_map_iff in H. destruct H as (r & Hr & Hin).
    apply filter_In in Hin. apply in_map_iff. exists r. tauto.
  - intros [H|H]; [|right; left; auto].
    destruct (string_dec m (message_id row)) as [Heq|Hne]; [right; left; auto|].
    left. apply in_map_iff in H. destruct H as (r & Hr & Hin).
    apply in_map_iff. exists r. split; [exact Hr|].
    apply filter_In. split; [exact Hin|].
    apply negb_true_iff. apply String.eqb_neq. congruence.
Qed.

Lemma processed_iff (st : MemoryStore) (m : string) :
  In m (get_processed_email_ids st) <-> In m (map message_id (labeled_emails st)).
Proof. unfold get_processed_email_ids. apply nodup_In. Qed.

Lemma insert_or_replace_others (row : LabeledEmail) (rows : list LabeledEmail) :
  filter (fun r => negb (message_id r =? message_id row)) (insert_or_replace row rows)
  = filter (fun r => negb (message_id r =? message_id row)) rows.
Proof.
  unfold insert_or_replace. rewrite filter_app. simpl.
  rewrite String.eqb_refl. simpl. rewrite app_nil_r.
  induction rows as [|r rs IH]; simpl; [reflexivity|].
  destruct (message_id r =? message_id row) eqn:Hr; simpl.
  - exact IH.
  - rewrite Hr. simpl. f_equal. exact IH.
Qed.

Lemma insert_by_id_In (row r : LabeledEmail) (rows : list LabeledEmail) :
  In r (insert_by_id row rows) <-> r = row \/ In r rows.
Proof.
  induction rows as [|r0 rs IH]; simpl.
  - intuition.
  - destruct (String.leb (message_id row) (message_id r0)); simpl.
    + intuition.
    + rewrite IH. intuition.
Qed.

Lemma order_by_id_In (r : LabeledEmail) (rows : list LabeledEmail) :
  In r (order_by_id rows) <-> In r rows.
Proof.
  induction rows as [|r0 rs IH]; simpl.
  - reflexivity.
  - rewrite insert_by_id_In, IH. intuition.
Qed.

Lemma rebuild_index_tables (E : Embedder) (st : MemoryStore) :
  labeled_emails (_rebuild_index E st) = labeled_emails st
  /\ rejected_labels (_rebuild_index E st) = rejected_labels st.
Proof.
  unfold _rebuild_index. destruct (filter accepted (labeled_emails st)); simpl; auto.
Qed.

Lemma rebuild_index_determined (E : Embedder) (st st' : MemoryStore) :
  labeled_emails st = labeled_emails st' ->
  rejected_labels st = rejected_labels st' ->
  ids st = ids st' ->
  _rebuild_index E st = _rebuild_index E st'.
Proof.
  intros Hl Hr Hi. unfold _rebuild_index. rewrite Hl, Hr, Hi. reflexivity.
Qed.

Lemma rebuild_index_ids_again (E : Embedder) (st : MemoryStore) :
  ids (_rebuild_index E (_rebuild_index E st)) = ids (_rebuild_index E st).
Proof.
  unfold _rebuild_index.
  destruct (filter accepted (labeled_emails st)) eqn:Hf; simpl; rewrite Hf; reflexivity.
Qed.

Lemma upsert_twice (E : Embedder) (st : MemoryStore) (email : LabeledEmail) :
  upsert_labeled_email E (upsert_labeled_email E st email) email
  = upsert_labeled_email E st email.
Proof.
  unfold upsert_labeled_email.
  destruct (rebuild_index_tables E
              {| labeled_emails := upsert_row email (labeled_emails st);
                 rejected_labels := rejected_labels st;
                 index := index st; ids := ids st |}) as [Hl Hr].
  simpl in Hl, Hr.
  set (st1 := _rebuild_index E _) in *.
  unfold _rebuild_index at 1. simpl.
  rewrite Hl, Hr, upsert_row_idempotent.
  unfold st1, _rebuild_index. simpl.
  destruct (filter accepted (upsert_row email (labeled_emails st))); reflexivity.
Qed.

(** ** Feedback ingestion *)

Lemma py_or_truthy (x y : option string) (l : string) :
  py_or x y = Some l -> l <> "" ->
  truthy (py_or x y) = true
  /\ or_default (py_or x y) "" = l
  /\ or_default (py_or x y) "Uncategorized" = l.
Proof.
  intros H Hl. rewrite H. simpl.
  apply String.eqb_neq in Hl. rewrite Hl. auto.
Qed.

Section Feedback.

Variable E : Embedder.
Variable gmail_get_message_by_id : string -> result Message.
Variable approvals : dict Decision.

Lemma apply_suggestion_approved (st : MemoryStore) (s : Suggestion) (mid l : string)
  (d : Decision) :
  msg_id (message s) = Some mid ->
  dict_get approvals mid = Some d ->
  approved d = true ->
  py_or (final_label d) (suggested_label s) = Some l ->
  l <> "" ->
  exists msg,
    apply_suggestion E gmail_get_message_by_id approvals st s
    = fst (mark_email_processed
             (upsert_labeled_email E st
                {| message_id := mid; subject := get (msg_subject msg);
                   sender := get (msg_from msg); snippet := get (msg_snippet msg);
                   applied_label := l; accepted := true |})
             mid l true).
Proof.
  intros Hid Hd Ha Hl Hne.
  destruct (py_or_truthy _ _ _ Hl Hne) as (Ht & Ho & Hu).
  unfold apply_suggestion. rewrite Hid, Hd, Ha, Ht, Ho, Hu. simpl.
  eexists. reflexivity.
Qed.

Lemma apply_suggestion_rejected (st : MemoryStore) (s : Suggestion) (mid l : string)
  (d : Decision) :
  msg_id (message s) = Some mid ->
  dict_get approvals mid = Some d ->
  approved d = false ->
  py_or (final_label d) (suggested_label s) = Some l ->
  l <> "" ->
  exists msg,
    apply_suggestion E gmail_get_message_by_id approvals st s
    = fst (mark_email_processed
             (fst (store_rejected_label st mid
                     (get_default (msg_subject msg) "") (get_default (msg_from msg) "")
                     (get_default (msg_snippet msg) "") l))
             mid l false).
Proof.
  intros Hid Hd Ha Hl Hne.
  destruct (py_or_truthy _ _ _ Hl Hne) as (Ht & Ho & Hu).
  unfold apply_suggestion. rewrite Hid, Hd, Ha, Ht, Ho, Hu. simpl.
  eexists. reflexivity.
Qed.

(** C2, as the code has it.  Handling a rejected decision that carries a
    non-empty label appends exactly one row to [rejected_labels], and
    [store_rejected_label] itself leaves [labeled_emails] as it was; the call
    of [mark_email_processed] that follows then replaces the row of the
    message in [labeled_emails] by a row without text that carries the rejected
    label with [accepted] false.  The index and [ids] are not touched. *)
Theorem rejected_decision_effects (st : MemoryStore) (s : Suggestion) (mid l : string)
  (d : Decision) :
  msg_id (message s) = Some mid ->
  dict_get approvals mid = Some d ->
  approved d = false ->
  py_or (final_label d) (suggested_label s) = Some l ->
  l <> "" ->
  let st' := apply_suggestion E gmail_get_message_by_id approvals st s in
  (exists row, rejected_labels st' = rejected_labels st ++ [row]
               /\ rej_message_id row = mid /\ rejected_label row = l)
  /\ (forall a b c, labeled_emails (fst (store_rejected_label st mid a b c l))
                    = labeled_emails st)
  /\ labeled_emails st'
     = insert_or_replace
         {| message_id := mid; subject := None; sender := None; snippet := None;
            applied_label := l; accepted := false |} (labeled_emails st)
  /\ index st' = index st /\ ids st' = ids st.
Proof.
  intros Hid Hd Ha Hl Hne st'.
  destruct (apply_suggestion_rejected st s mid l d Hid Hd Ha Hl Hne) as [msg Hmsg].
  subst st'. rewrite Hmsg. simpl.
  repeat split; try reflexivity.
  eexists. repeat split.
Qed.

(** C10.  [mark_email_processed] replaces the whole row of the message: after
    [upsert_labeled_email] the table holds the email as given, after
    [mark_email_processed] for the same id it holds only the id, the label and
    the flag, with subject, sender and snippet null; the flow for an approved
    decision calls both in that order and ends with such a row. *)
Theorem mark_email_processed_erases_text (st : MemoryStore) (email : LabeledEmail)
  (s : Suggestion) (mid l : string) (d : Decision) :
  NoDup (map message_id (labeled_emails st)) ->
  msg_id (message s) = Some mid ->
  dict_get approvals mid = Some d ->
  approved d = true ->
  py_or (final_label d) (suggested_label s) = Some l ->
  l <> "" ->
  let by_id (k : string) (t : MemoryStore) :=
    filter (fun r => message_id r =? k) (labeled_emails t) in
  let st1 := upsert_labeled_email E st email in
  let st2 := fst (mark_email_processed st1 (message_id email) (applied_label email)
                    (accepted email)) in
  by_id (message_id email) st1 = [email]
  /\ by_id (message_id email) st2
     = [{| message_id := message_id email; subject := None; sender := None;
           snippet := None; applied_label := applied_label email;
           accepted := accepted email |}]
  /\ by_id mid (apply_suggestion E gmail_get_message_by_id approvals st s)
     = [{| message_id := mid; subject := None; sender := None; snippet := None;
           applied_label := l; accepted := true |}].
Proof.
  intros Hnd Hid Hd Ha Hl Hne by_id st1 st2.
  split; [|split].
  - unfold by_id, st1, upsert_labeled_email.
    rewrite (proj1 (rebuild_index_tables E _)). simpl.
    apply upsert_row_lookup. exact Hnd.
  - unfold by_id, st2. simpl.
    apply (insert_or_replace_lookup
             {| message_id := message_id email; subject := None; sender := None;
                snippet := None; applied_label := applied_label email;
                accepted := accepted email |}).
  - destruct (apply_suggestion_approved st s mid l d Hid Hd Ha Hl Hne) as [msg Hmsg].
    unfold by_id. rewrite Hmsg. simpl.
    apply (insert_or_replace_lookup
             {| message_id := mid; subject := None; sender := None; snippet := None;
                applied_label := l; accepted := true |}).
Qed.

End Feedback.

(** C2, as stated, fails: handling the rejection of label [Spam] for message
    [m1] on an empty store leaves a row for [m1] in [labeled_emails]. *)
Lemma rejected_decision_writes_labeled_email :
  let st' := apply_suggestion stub_model no_gmail reject_m1 empty_store
               (suggestion_for invoice_message "Spam") in
  labeled_emails st'
  = [{| message_id := "m1"; subject := None; sender := None; snippet := None;
        applied_label := "Spam"; accepted := false |}]
  /\ labeled_emails st' <> labeled_emails empty_store.
Proof.
  split.
  - reflexivity.
  - discriminate.
Qed.

Lemma rejected_decision_effects_witness :
  labeled_emails (apply_suggestion stub_model no_gmail reject_m1 empty_store
                    (suggestion_for invoice_message "Spam"))
  = insert_or_replace
      {| message_id := "m1"; subject := None; sender := None; snippet := None;
         applied_label := "Spam"; accepted := false |} (labeled_emails empty_store).
Proof.
  refine (proj1 (proj2 (proj2
    (rejected_decision_effects stub_model no_gmail reject_m1 empty_store
       (suggestion_for invoice_message "Spam") "m1" "Spam"
       {| approved := false; final_label := None |} _ _ _ _ _)))).
  - reflexivity.
  - reflexivity.
  - reflexivity.
  - reflexivity.
  - discriminate.
Defined.

Lemma mark_email_processed_erases_text_witness :
  filter (fun r => message_id r =? "m1")
    (labeled_emails (apply_suggestion stub_model no_gmail approve_m1 empty_store
                       (suggestion_for invoice_message "Invoices")))
  = [{| message_id := "m1"; subject := None; sender := None; snippet := None;
        applied_label := "Invoices"; accepted := true |}].
Proof.
  refine (proj2 (proj2
    (mark_email_processed_erases_text stub_model no_gmail approve_m1 empty_store invoice
       (suggestion_for invoice_message "Invoices") "m1" "Invoices"
       {| approved := true; final_label := Some "Invoices" |} _ _ _ _ _ _))).
  - constructor.
  - reflexivity.
  - reflexivity.
  - reflexivity.
  - reflexivity.
  - discriminate.
Defined.

(** ** Idempotence of the upsert *)

(** C9.  A second [upsert_labeled_email] with the same data leaves the store
    as the first one left it: the tables, the index and [ids] are equal, hence
    the centroids and the result of every [similar] query; the table still has
    one row per message id, the one of this message being the email itself. *)
Theorem upsert_labeled_email_idempotent (E : Embedder)
  (faiss_search : list vec -> vec -> nat -> list (R * option nat))
  (st : MemoryStore) (email : LabeledEmail) :
  let st1 := upsert_labeled_email E st email in
  let st2 := upsert_labeled_email E st1 email in
  st2 = st1
  /\ get_label_centroids E st2 = get_label_centroids E st1
  /\ (forall subject sender snippet k,
        similar E faiss_search st2 subject sender snippet k
        = similar E faiss_search st1 subject sender snippet k)
  /\ (NoDup (map message_id (labeled_emails st)) ->
      NoDup (map message_id (labeled_emails st2))
      /\ filter (fun r => message_id r =? message_id email) (labeled_emails st2) = [email]).
Proof.
  intros st1 st2.
  assert (H : st2 = st1) by apply upsert_twice.
  split; [exact H|]. rewrite H.
  split; [reflexivity|]. split; [reflexivity|].
  intros Hnd. unfold st1, upsert_labeled_email.
  rewrite (proj1 (rebuild_index_tables E _)). simpl.
  split; [apply upsert_row_NoDup | apply upsert_row_lookup]; exact Hnd.
Qed.

Lemma upsert_labeled_email_idempotent_witness :
  NoDup (map message_id
           (labeled_emails
              (upsert_labeled_email stub_model
                 (upsert_labeled_email stub_model store_A invoice) invoice))).
Proof.
  refine (proj1 (proj2 (proj2 (proj2
    (upsert_labeled_email_idempotent stub_model empty_search store_A invoice))) _)).
  repeat constructor; simpl; intuition.
Defined.

(** ** Vectors *)

Lemma dot_zeros_l (n : nat) (v : vec) : dot (zeros n) v = 0.
Proof.
  unfold zeros. revert v.
  induction n as [|n IH]; intros [|y v]; simpl; try reflexivity.
  rewrite IH. lra.
Qed.

Lemma dot_self_nonneg (v : vec) : 0 <= dot v v.
Proof.
  induction v as [|x v IH]; simpl; [lra | nra].
Qed.

Lemma dot_vdiv (u v : vec) (s : R) :
  dot (vdiv u s) (vdiv v s) = dot u v * (/ s * / s).
Proof.
  revert v. induction u as [|x u IH]; intros [|y v]; simpl; try lra.
  rewrite IH. unfold Rdiv. ring.
Qed.

Lemma dot_cons (x y : R) (u v : vec) : dot (x :: u) (y :: v) = x * y + dot u v.
Proof. reflexivity. Qed.

Lemma dot_basis (a b : R) : dot (basis a) (basis b) = a * b.
Proof.
  unfold basis. rewrite dot_cons, dot_zeros_l. lra.
Qed.

Lemma norm_nonneg (v : vec) : 0 <= norm v.
Proof. apply sqrt_pos. Qed.

Lemma norm_vdiv (v : vec) (s : R) : 0 < s -> norm (vdiv v s) = norm v / s.
Proof.
  intros Hs. unfold norm. rewrite dot_vdiv.
  assert (Hi : 0 < / s) by (apply Rinv_0_lt_compat; exact Hs).
  rewrite sqrt_mult; [| apply dot_self_nonneg | nra].
  rewrite sqrt_square; [reflexivity | lra].
Qed.

Lemma eps_pos : 0 < eps.
Proof. unfold eps. lra. Qed.

(** A vector that is not short is, once divided by its norm plus [1e-8], a
    unit vector up to a tolerance far above that guard. *)
Lemma norm_guarded_near_unit (v : vec) :
  1 / 100 <= norm v -> Rabs (norm (vdiv v (norm v + eps)) - 1) <= 1 / 10000.
Proof.
  intros Hv. pose proof eps_pos as He.
  rewrite norm_vdiv by lra.
  set (n := norm v) in *.
  assert (Hi : 0 < / (n + eps)) by (apply Rinv_0_lt_compat; lra).
  replace (n / (n + eps) - 1) with (- (eps * / (n + eps))) by (field; lra).
  rewrite Rabs_Ropp, Rabs_pos_eq by nra.
  apply Rmult_le_reg_r with (n + eps); [lra|].
  rewrite Rmult_assoc, Rinv_l by lra.
  unfold eps in *. lra.
Qed.

Lemma scale_zeros (a : R) (n : nat) : scale a (zeros n) = zeros n.
Proof.
  unfold scale, zeros. induction n as [|n IH]; simpl; [reflexivity|].
  rewrite IH. f_equal. lra.
Qed.

Lemma vdiv_zeros (s : R) (n : nat) : vdiv (zeros n) s = zeros n.
Proof.
  unfold vdiv, zeros. induction n as [|n IH]; simpl; [reflexivity|].
  rewrite IH. f_equal. unfold Rdiv. ring.
Qed.

Lemma vadd_zeros (n : nat) : vadd (zeros n) (zeros n) = zeros n.
Proof.
  unfold zeros. induction n as [|n IH]; simpl; [reflexivity|].
  rewrite IH. f_equal. lra.
Qed.

Lemma scale_basis (a b : R) : scale a (basis b) = basis (a * b).
Proof.
  unfold basis.
  change (scale a (b :: zeros (dim - 1))) with ((a * b) :: scale a (zeros (dim - 1))).
  rewrite scale_zeros. reflexivity.
Qed.

Lemma vdiv_basis (a s : R) : vdiv (basis a) s = basis (a / s).
Proof.
  unfold basis.
  change (vdiv (a :: zeros (dim - 1)) s) with ((a / s) :: vdiv (zeros (dim - 1)) s).
  rewrite vdiv_zeros. reflexivity.
Qed.

Lemma vadd_basis (a b : R) : vadd (basis a) (basis b) = basis (a + b).
Proof.
  unfold basis.
  change (vadd (a :: zeros (dim - 1)) (b :: zeros (dim - 1)))
    with ((a + b) :: vadd (zeros (dim - 1)) (zeros (dim - 1))).
  rewrite vadd_zeros. reflexivity.
Qed.

Lemma zeros_dim_basis : zeros dim = basis 0.
Proof. reflexivity. Qed.

Lemma norm_basis (a : R) : 0 <= a -> norm (basis a) = a.
Proof.
  intros Ha. unfold norm. rewrite dot_basis. apply sqrt_square. exact Ha.
Qed.

Lemma normalize_basis (a : R) : 0 <= a -> normalize (basis a) = basis (a / (a + eps)).
Proof.
  intros Ha. unfold normalize. rewrite norm_basis by exact Ha. apply vdiv_basis.
Qed.

Lemma norm_zeros (n : nat) : norm (zeros n) = 0.
Proof. unfold norm. rewrite dot_zeros_l. apply sqrt_0. Qed.

Lemma similarity_zeros_l (n : nat) (v : vec) : similarity (zeros n) v = None.
Proof.
  unfold similarity. rewrite norm_zeros.
  destruct (Req_dec_T (0 * norm v) 0) as [_|Hn]; [reflexivity|].
  exfalso. apply Hn. ring.
Qed.

Lemma similarity_self (e : vec) : 0 < dot e e -> similarity e e = Some 1.
Proof.
  intros H. unfold similarity, norm.
  rewrite sqrt_sqrt by lra.
  destruct (Req_dec_T (dot e e) 0) as [H0|_]; [lra|].
  f_equal. unfold Rdiv. apply Rinv_r. lra.
Qed.

Lemma dot_self_zero (v w : vec) : dot v v = 0 -> dot v w = 0.
Proof.
  revert w. induction v as [|x v IH]; intros [|y w]; simpl; intros H; try reflexivity.
  pose proof (dot_self_nonneg v) as Hv.
  assert (Hx : x = 0) by nra.
  rewrite IH by nra. subst x. lra.
Qed.

Lemma dot_comm (v w : vec) : dot v w = dot w v.
Proof.
  revert w. induction v as [|x v IH]; intros [|y w]; simpl; try reflexivity.
  rewrite IH. lra.
Qed.

(** The quotient that [similarity] leaves undefined is [0 / 0] and nothing
    else: a zero divisor comes with a zero dot product. *)
Lemma zero_divisor_zero_dot (a b : vec) : norm a * norm b = 0 -> dot a b = 0.
Proof.
  intros H. apply Rmult_integral in H. destruct H as [H|H].
  - apply dot_self_zero. apply sqrt_eq_0; [apply dot_self_nonneg | exact H].
  - rewrite dot_comm. apply dot_self_zero.
    apply sqrt_eq_0; [apply dot_self_nonneg | exact H].
Qed.

Lemma dot_normalize_basis_pos : 0 < dot (normalize (basis 1)) (normalize (basis 1)).
Proof.
  unfold normalize. rewrite dot_vdiv, dot_basis.
  assert (Hn : norm (basis 1) = 1).
  { unfold norm. rewrite dot_basis. replace (1 * 1) with 1 by lra. apply sqrt_1. }
  rewrite Hn.
  assert (Hi : 0 < / (1 + eps)).
  { apply Rinv_0_lt_compat. pose proof eps_pos. lra. }
  nra.
Qed.

(** ** The embedding function *)

Lemma embed_empty (E : Embedder) : _embed E "" = zeros dim.
Proof. reflexivity. Qed.

Lemma join_fields_falsy (a b c : option string) :
  truthy a = false -> truthy b = false -> truthy c = false ->
  join_fields [a; b; c] = "".
Proof.
  unfold truthy, join_fields.
  destruct a as [a|], b as [b|], c as [c|]; simpl; intros Ha Hb Hc;
    repeat match goal with
           | H : negb (?s =? "") = false |- _ =>
               apply negb_false_iff in H; rewrite H
           end; reflexivity.
Qed.

Lemma get_default_falsy (f : field) :
  truthy (get f) = false -> truthy (get_default f "") = false.
Proof. destruct f; simpl; auto. Qed.

(** ** The rejected labels of similar emails *)

Section Rejected.

Variable E : Embedder.

Lemma rejected_loop_ok (cur : vec) (thr : R) (rows : list RejectedLabel) (acc : list string) :
  similar_rejected_labels E cur thr rows = [] ->
  rejected_loop E cur thr rows acc = Ok acc.
Proof.
  induction rows as [|r rs IH]; simpl; intros H; [reflexivity|].
  destruct (similar_enough (similarity cur (stored_embedding E r)) thr);
    [discriminate | auto].
Qed.

Lemma rejected_loop_raise (cur : vec) (thr : R) (rows : list RejectedLabel) (acc : list string) :
  similar_rejected_labels E cur thr rows <> [] ->
  rejected_loop E cur thr rows acc = Raise (NameError "logger").
Proof.
  induction rows as [|r rs IH]; simpl; intros H; [congruence|].
  destruct (similar_enough (similarity cur (stored_embedding E r)) thr);
    [reflexivity | auto].
Qed.

Lemma similar_enough_ge (x thr : R) : x >= thr -> similar_enough (Some x) thr = true.
Proof.
  intros H. simpl. destruct (Rge_dec x thr); [reflexivity | contradiction].
Qed.

Lemma similar_rejected_in (cur : vec) (thr x : R) (rows : list RejectedLabel)
  (r : RejectedLabel) :
  In r rows -> similarity cur (stored_embedding E r) = Some x -> x >= thr ->
  In (rejected_label r) (similar_rejected_labels E cur thr rows).
Proof.
  induction rows as [|r0 rs IH]; simpl; intros Hin Hs Hx; [contradiction|].
  destruct Hin as [Heq|Hin].
  - subst r0. rewrite Hs, (similar_enough_ge x thr Hx). left. reflexivity.
  - destruct (similar_enough _ thr); [right|]; auto.
Qed.

Lemma get_rejected_spec (st : MemoryStore) (a b c : option string) (thr : R) :
  get_rejected_labels_for_similar_emails E st a b c thr
  = match similar_rejected_labels E (_embed E (join_fields [a; b; c])) thr
            (rejected_labels st) with
    | [] => Ok []
    | _ => Raise (NameError "logger")
    end.
Proof.
  unfold get_rejected_labels_for_similar_emails.
  destruct (rejected_labels st) as [|r rs] eqn:Hrows; [reflexivity|].
  destruct (similar_rejected_labels E _ thr (r :: rs)) eqn:Hs.
  - apply rejected_loop_ok. exact Hs.
  - apply rejected_loop_raise. congruence.
Qed.

Lemma get_rejected_ok (st : MemoryStore) (a b c : option string) (thr : R) (S : list string) :
  get_rejected_labels_for_similar_emails E st a b c thr = Ok S ->
  S = []
  /\ similar_rejected_labels E (_embed E (join_fields [a; b; c])) thr (rejected_labels st) = [].
Proof.
  rewrite get_rejected_spec.
  destruct (similar_rejected_labels E _ thr (rejected_labels st)); intros H.
  - inversion H. auto.
  - discriminate.
Qed.

Lemma similar_rejected_blank (n : nat) (thr : R) (rows : list RejectedLabel) :
  similar_rejected_labels E (zeros n) thr rows = [].
Proof.
  induction rows as [|r rs IH]; simpl; [reflexivity|].
  rewrite similarity_zeros_l. exact IH.
Qed.

(** C3.  [mark_email_processed] and [store_rejected_label] raise [NameError]
    for the name [logger], and what they wrote before is in the store they
    leave behind.  After [mark_email_processed] the table holds exactly one row
    for the message, the one just written, and the other rows as they were:
    [get_label_for_message] reads the new label back and
    [get_processed_email_ids] lists the message.  After [store_rejected_label]
    the table of rejections is one row longer, and a later
    [get_rejected_labels_for_similar_emails] for the same text, if the text is
    not embedded as the zero vector, meets that row at the default threshold
    and at every lower one.
    [get_rejected_labels_for_similar_emails] raises the same [NameError] as
    soon as one stored rejection is at least as similar to the query as the
    threshold asks. *)
Theorem store_operations_raise_name_error (st : MemoryStore) :
  (forall mid lbl acc,
      let out := mark_email_processed st mid lbl acc in
      snd out = Raise (NameError "logger")
      /\ filter (fun r => message_id r =? mid) (labeled_emails (fst out))
         = [{| message_id := mid; subject := None; sender := None; snippet := None;
               applied_label := lbl; accepted := acc |}]
      /\ filter (fun r => negb (message_id r =? mid)) (labeled_emails (fst out))
         = filter (fun r => negb (message_id r =? mid)) (labeled_emails st)
      /\ get_label_for_message (fst out) (Some mid) = Some lbl
      /\ In mid (get_processed_email_ids (fst out))
      /\ rejected_labels (fst out) = rejected_labels st)
  /\ (forall mid a b c lbl,
         let out := store_rejected_label st mid a b c lbl in
         let query := _embed E (join_fields [a; b; c]) in
         snd out = Raise (NameError "logger")
         /\ rejected_labels (fst out)
            = rejected_labels st
              ++ [{| rej_message_id := mid; rej_subject := a; rej_sender := b;
                     rej_snippet := c; rejected_label := lbl |}]
         /\ List.length (rejected_labels (fst out)) = S (List.length (rejected_labels st))
         /\ labeled_emails (fst out) = labeled_emails st
         /\ (forall thr, thr <= 0.7 -> 0 < dot query query ->
               get_rejected_labels_for_similar_emails E (fst out) a b c thr
               = Raise (NameError "logger")))
  /\ (forall a b c thr r x,
         In r (rejected_labels st) ->
         similarity (_embed E (join_fields [a; b; c])) (stored_embedding E r) = Some x ->
         x >= thr ->
         get_rejected_labels_for_similar_emails E st a b c thr
         = Raise (NameError "logger")).
Proof.
  split; [|split].
  - intros mid lbl acc out.
    set (row := {| message_id := mid; subject := None; sender := None; snippet := None;
                   applied_label := lbl; accepted := acc |}).
    assert (Hrows : labeled_emails (fst out) = insert_or_replace row (labeled_emails st))
      by reflexivity.
    split; [reflexivity|].
    split; [rewrite Hrows; apply (insert_or_replace_lookup row)|].
    split; [rewrite Hrows; apply (insert_or_replace_others row)|].
    split; [|split; [|reflexivity]].
    + unfold get_label_for_message. rewrite Hrows, (insert_or_replace_lookup row).
      reflexivity.
    + apply processed_iff. rewrite Hrows. apply insert_or_replace_ids.
      right. reflexivity.
  - intros mid a b c lbl out query.
    set (row := {| rej_message_id := mid; rej_subject := a; rej_sender := b;
                   rej_snippet := c; rejected_label := lbl |}).
    assert (Hrows : rejected_labels (fst out) = rejected_labels st ++ [row]) by reflexivity.
    split; [reflexivity|]. split; [exact Hrows|].
    split; [rewrite Hrows, length_app; simpl; lia|].
    split; [reflexivity|].
    intros thr Hthr Hpos. rewrite get_rejected_spec. fold query.
    assert (Hin : In (rejected_label row)
                    (similar_rejected_labels E query thr (rejected_labels (fst out)))).
    { apply (similar_rejected_in query thr 1).
      - rewrite Hrows. apply in_or_app. right. left. reflexivity.
      - apply similarity_self. exact Hpos.
      - lra. }
    destruct (similar_rejected_labels E query thr (rejected_labels (fst out)));
      [contradiction | reflexivity].
  - intros a b c thr r x Hin Hs Hx. rewrite get_rejected_spec.
    pose proof (similar_rejected_in _ thr x _ r Hin Hs Hx) as H.
    destruct (similar_rejected_labels E _ thr (rejected_labels st)); [contradiction | reflexivity].
Qed.

End Rejected.

Lemma store_operations_raise_name_error_witness :
  (snd (mark_email_processed store_A "m0" "B" false) = Raise (NameError "logger")
   /\ get_label_for_message (fst (mark_email_processed store_A "m0" "B" false)) (Some "m0")
      = Some "B")
  /\ (snd (store_rejected_label store_A "m1" (Some "Invoice 42") None None "Spam")
      = Raise (NameError "logger")
      /\ get_rejected_labels_for_similar_emails stub_model
           (fst (store_rejected_label store_A "m1" (Some "Invoice 42") None None "Spam"))
           (Some "Invoice 42") None None 0.7
         = Raise (NameError "logger"))
  /\ get_rejected_labels_for_similar_emails stub_model store_with_rejection
       (Some "Invoice 42") (Some "") None 0.7
     = Raise (NameError "logger").
Proof.
  split; [|split].
  - destruct (proj1 (store_operations_raise_name_error stub_model store_A) "m0" "B" false)
      as (Hraise & _ & _ & Hlabel & _).
    split; [exact Hraise | exact Hlabel].
  - destruct (proj1 (proj2 (store_operations_raise_name_error stub_model store_A))
                "m1" (Some "Invoice 42") None None "Spam")
      as (Hraise & _ & _ & _ & Hlater).
    split; [exact Hraise|].
    apply Hlater; [lra|].
    change (0 < dot (normalize (basis 1)) (normalize (basis 1))).
    apply dot_normalize_basis_pos.
  - refine (proj2 (proj2 (store_operations_raise_name_error stub_model store_with_rejection))
              (Some "Invoice 42") (Some "") None 0.7 invoice_rejection 1 _ _ _).
    + left. reflexivity.
    + change (similarity (normalize (basis 1)) (normalize (basis 1)) = Some 1).
      apply similarity_self. apply dot_normalize_basis_pos.
    + lra.
Defined.

(** ** The centroid tier *)

Section Tiers.

Variable E : Embedder.
Variable faiss_search : list vec -> vec -> nat -> list (R * option nat).

Lemma score_labels_entries (centroids : dict vec) (rejected : list string) (q : vec)
  (labels : list string) (score_map : dict R) (l : string) (sc : R) :
  In (l, sc) (score_labels centroids rejected q labels score_map) ->
  In (l, sc) score_map
  \/ (In l labels /\ mem l rejected = false
      /\ exists c, dict_get centroids l = Some c /\ sc = score01_of (dot q c)).
Proof.
  revert score_map. induction labels as [|label rest IH]; simpl; intros score_map H.
  - auto.
  - destruct (mem label rejected) eqn:Hm.
    + destruct (IH _ H) as [H'|(Hin & H')]; [left | right; split]; auto.
    + destruct (dict_get centroids label) as [c|] eqn:Hc.
      * destruct (IH _ H) as [H'|(Hin & H')]; [| right; split; auto].
        destruct (dict_set_in _ _ _ _ _ H') as [H''|[Hl Hs]]; [auto|].
        subst. right. repeat split; eauto.
      * destruct (IH _ H) as [H'|(Hin & H')]; [left | right; split]; auto.
Qed.

Lemma score_labels_skips (centroids : dict vec) (rejected : list string) (q : vec)
  (labels : list string) (score_map : dict R) (l : string) :
  In l rejected ->
  dict_get (score_labels centroids rejected q labels score_map) l = dict_get score_map l.
Proof.
  intros Hl. revert score_map.
  induction labels as [|label rest IH]; simpl; intros score_map; [reflexivity|].
  destruct (mem label rejected) eqn:Hm; [apply IH|].
  destruct (dict_get centroids label); [|apply IH].
  rewrite IH, dict_get_set.
  destruct (label =? l) eqn:Heq; [|reflexivity].
  apply String.eqb_eq in Heq. subst label.
  apply mem_true_iff in Hl. congruence.
Qed.

Lemma score_labels_no_centroids (rejected : list string) (q : vec) (labels : list string)
  (score_map : dict R) :
  score_labels [] rejected q labels score_map = score_map.
Proof.
  induction labels as [|label rest IH]; simpl; [reflexivity|].
  destruct (mem label rejected); exact IH.
Qed.


Lemma score_all_eq (centroids : dict vec) (q : vec) (labels : list string)
  (score_map : dict R) :
  score_all centroids q labels score_map = score_labels centroids [] q labels score_map.
Proof.
  revert score_map. induction labels as [|label rest IH]; simpl; intros score_map;
    [reflexivity|].
  destruct (dict_get centroids label); apply IH.
Qed.


Lemma historical_majority_empty_table (st : MemoryStore) (labels_api : list (string * string))
  (msg : Message) (sm : dict R) :
  labeled_emails st = [] ->
  historical_majority E faiss_search st labels_api msg sm = Generative [].
Proof.
  intros Hl. unfold historical_majority, get_messages_by_ids. rewrite Hl.
  destruct (map fst (similar E faiss_search st _ _ _ 5)); reflexivity.
Qed.

Lemma best_label_nonempty (centroids : dict vec) (rejected : list string) (q : vec)
  (labels : list string) (bl : string) (bs : R) :
  ~ In "" labels ->
  max_item (score_labels centroids rejected q labels []) = Some (bl, bs) ->
  (bl =? "") = false.
Proof.
  intros Hne Hmax. apply max_item_in in Hmax.
  apply score_labels_entries in Hmax. destruct Hmax as [[]|(Hin & _)].
  apply String.eqb_neq. intros Habs. subst bl. contradiction.
Qed.

(** What the loop body of [node_classify] returns once the rejected labels
    were obtained. *)
Lemma classify_message_tier1 (st : MemoryStore) (labels_api : list (string * string))
  (state_thr : option R) (msg : Message) (rejected : list string) :
  get_rejected_labels_for_similar_emails E st
    (get_default (msg_subject msg) "") (get_default (msg_from msg) "")
    (get_default (msg_snippet msg) "") 0.7 = Ok rejected ->
  let score_map :=
    score_labels (get_label_centroids E st) rejected (embed_text E (query_text msg))
      (map fst labels_api) [] in
  classify_message E faiss_search st labels_api state_thr msg
  = match max_item score_map with
    | Some (bl, bs) =>
        if Rge_dec bs (score_threshold state_thr) then
          if bl =? "" then
            Ok (historical_majority E faiss_search st labels_api msg score_map)
          else
            Ok (Resolved {| message := msg; suggested_label := Some bl;
                            label_id := dict_get (id_by_name_of labels_api) bl;
                            source := Some centroid; scores := top_scores score_map |})
        else Ok (historical_majority E faiss_search st labels_api msg score_map)
    | None => Ok (historical_majority E faiss_search st labels_api msg [])
    end.
Proof.
  intros Hrej score_map. subst score_map.
  unfold classify_message, centroid_scoring.
  destruct (get_label_centroids E st) as [|kc centroids] eqn:Hc.
  - rewrite score_labels_no_centroids. reflexivity.
  - rewrite Hrej. simpl bind.
    destruct (max_item _) as [[bl bs]|]; [|reflexivity].
    destruct (Rge_dec bs (score_threshold state_thr)); simpl; [|reflexivity].
    destruct (bl =? ""); reflexivity.
Qed.


End Tiers.

(** ** Centroids *)

Section Centroids.

Variable E : Embedder.

Lemma setdefault_append_get {V : Type} (accum : dict (list V)) (l l' : string) (x : V) :
  dict_get (setdefault_append accum l x) l'
  = if l =? l' then Some (match dict_get accum l with
                          | Some xs => xs ++ [x]
                          | None => [x]
                          end)
    else dict_get accum l'.
Proof.
  induction accum as [|[k xs] accum IH]; simpl.
  - reflexivity.
  - destruct (k =? l) eqn:Hk; simpl.
    + apply String.eqb_eq in Hk; subst k.
      destruct (l =? l'); reflexivity.
    + destruct (k =? l') eqn:Hk'.
      * apply String.eqb_eq in Hk'; subst k.
        rewrite String.eqb_sym in Hk. rewrite Hk. reflexivity.
      * exact IH.
Qed.

Lemma accumulate_get (rows : list LabeledEmail) (accum : dict (list (vec * R))) (l : string) :
  dict_get (accumulate E rows accum) l
  = match dict_get accum l with
    | Some xs => Some (xs ++ label_entries E l rows)
    | None => match label_entries E l rows with
              | [] => None
              | es => Some es
              end
    end.
Proof.
  revert accum. unfold label_entries.
  induction rows as [|r rs IH]; intros accum; simpl.
  - destruct (dict_get accum l); [rewrite app_nil_r|]; reflexivity.
  - rewrite IH, setdefault_append_get.
    destruct (applied_label r =? l) eqn:Hr.
    + apply String.eqb_eq in Hr. subst l.
      destruct (dict_get accum (applied_label r)); simpl.
      * rewrite <- app_assoc. reflexivity.
      * reflexivity.
    + reflexivity.
Qed.

Lemma centroids_of_get (accum : dict (list (vec * R))) (l : string) (x : vec * R)
  (xs : list (vec * R)) :
  dict_get accum l = Some (x :: xs) ->
  dict_get (centroids_of accum) l = Some (centroid_of (x :: xs)).
Proof.
  induction accum as [|[k ys] accum IH]; simpl; intros H; [discriminate|].
  destruct (k =? l) eqn:Hk.
  - inversion H; subst ys. simpl. rewrite Hk. reflexivity.
  - destruct ys as [|y ys]; [auto|]. simpl. rewrite Hk. auto.
Qed.

Lemma get_label_centroids_get (st : MemoryStore) (l : string) (x : vec * R)
  (xs : list (vec * R)) :
  label_entries E l (labeled_emails st) = x :: xs ->
  dict_get (get_label_centroids E st) l = Some (centroid_of (x :: xs)).
Proof.
  intros H. unfold get_label_centroids.
  destruct (labeled_emails st) as [|r rs] eqn:Hrows; [discriminate|].
  apply centroids_of_get. rewrite accumulate_get, H. reflexivity.
Qed.

Lemma get_label_centroids_nil (st : MemoryStore) :
  get_label_centroids E st = [] -> labeled_emails st = [].
Proof.
  destruct (labeled_emails st) as [|r rs] eqn:Hrows; [reflexivity|].
  intros H.
  assert (Hg : dict_get (get_label_centroids E st) (applied_label r)
               = Some (centroid_of (label_entries E (applied_label r) (r :: rs)))).
  { unfold label_entries. simpl. rewrite String.eqb_refl. simpl.
    apply get_label_centroids_get. rewrite Hrows. unfold label_entries. simpl.
    rewrite String.eqb_refl. reflexivity. }
  rewrite H in Hg. discriminate.
Qed.

End Centroids.

(** ** Messages without text *)

Section Blank.

Variable E : Embedder.
Variable faiss_search : list vec -> vec -> nat -> list (R * option nat).
Variable msg : Message.

Hypothesis no_subject : truthy (get (msg_subject msg)) = false.
Hypothesis no_sender : truthy (get (msg_from msg)) = false.
Hypothesis no_snippet : truthy (get (msg_snippet msg)) = false.

Lemma blank_query : embed_text E (query_text msg) = zeros dim.
Proof.
  unfold embed_text, query_text.
  rewrite join_fields_falsy by assumption. reflexivity.
Qed.

Lemma blank_not_rejected (st : MemoryStore) :
  get_rejected_labels_for_similar_emails E st
    (get_default (msg_subject msg) "") (get_default (msg_from msg) "")
    (get_default (msg_snippet msg) "") 0.7 = Ok [].
Proof.
  rewrite get_rejected_spec.
  rewrite join_fields_falsy by (apply get_default_falsy; assumption).
  rewrite embed_empty, similar_rejected_blank. reflexivity.
Qed.

Lemma blank_scores (centroids : dict vec) (labels : list string) (l : string) (sc : R) :
  In (l, sc) (score_labels centroids [] (zeros dim) labels []) -> sc = 1 / 2.
Proof.
  intros H. apply score_labels_entries in H.
  destruct H as [[]|(_ & _ & c & _ & Hs)].
  rewrite Hs, dot_zeros_l. unfold score01_of. lra.
Qed.

End Blank.

Lemma max_from_first (best : string * R) (rest : list (string * R)) :
  (forall kv, In kv rest -> snd kv = snd best) -> max_from best rest = best.
Proof.
  induction rest as [|kv r IH]; simpl; intros H; [reflexivity|].
  destruct (Rgt_dec (snd kv) (snd best)) as [Hgt|_].
  - rewrite (H kv) in Hgt by auto. lra.
  - apply IH. auto.
Qed.

(** The store that holds one processed email, labelled [A], and a message
    without text: the centroid tier resolves the message to [A] for every
    threshold up to one half. *)
Lemma store_A_blank_resolved (state_thr : option R) :
  score_threshold state_thr <= 1 / 2 ->
  exists sc,
    classify_message stub_model empty_search store_A labels_A state_thr blank_message
    = Ok (Resolved {| message := blank_message; suggested_label := Some "A";
                      label_id := Some "Label_1"; source := Some centroid;
                      scores := [("A", sc)] |}).
Proof.
  intros Hthr.
  pose proof (classify_message_tier1 stub_model empty_search store_A labels_A state_thr
                blank_message [] eq_refl) as H.
  cbv zeta in H. rewrite H. clear H.
  set (q := embed_text stub_model (query_text blank_message)).
  set (c := centroid_of [(row_embedding stub_model processed_A, row_weight processed_A)]).
  change (score_labels (get_label_centroids stub_model store_A) [] q (map fst labels_A) [])
    with [("A", score01_of (dot q c))].
  change (max_item [("A", score01_of (dot q c))]) with (Some ("A", score01_of (dot q c))).
  cbv iota beta.
  assert (Hq : dot q c = 0).
  { unfold q. rewrite blank_query by reflexivity. apply dot_zeros_l. }
  destruct (Rge_dec (score01_of (dot q c)) (score_threshold state_thr)) as [_|Hn].
  - exists (round (score01_of (dot q c) * 100) 1). reflexivity.
  - exfalso. apply Hn. rewrite Hq. unfold score01_of. lra.
Qed.


(** ** A similar rejection in the loop body of [node_classify] *)

(** With at least one stored example, a stored rejection that is similar to
    the message ends the loop body of [node_classify] with the [NameError] of
    [get_rejected_labels_for_similar_emails]: no tier is reached. *)
Lemma similar_rejection_aborts_classification (E : Embedder)
  (faiss_search : list vec -> vec -> nat -> list (R * option nat))
  (st : MemoryStore) (labels_api : list (string * string)) (state_thr : option R)
  (msg : Message) :
  labeled_emails st <> [] ->
  similar_rejected_labels E
    (_embed E (join_fields [get_default (msg_subject msg) "";
                            get_default (msg_from msg) "";
                            get_default (msg_snippet msg) ""]))
    0.7 (rejected_labels st) <> [] ->
  classify_message E faiss_search st labels_api state_thr msg = Raise (NameError "logger").
Proof.
  intros Hrows Hsim. unfold classify_message, centroid_scoring.
  destruct (get_label_centroids E st) as [|kc cs] eqn:Hc.
  - apply (get_label_centroids_nil E) in Hc. contradiction.
  - rewrite get_rejected_spec.
    destruct (similar_rejected_labels E _ 0.7 (rejected_labels st)); [congruence|].
    reflexivity.
Qed.

(** ** The zero embedding in the centroid tier *)

(** C7, as the code has it.  A message whose subject, sender and snippet are
    all empty or absent is embedded as the zero vector, no stored rejection is
    similar to it, and every candidate label scores exactly one half; the best
    candidate is the first one scored, and the centroid tier resolves the
    message to it whenever the threshold is at most one half, leaving it to the
    next tier only for a threshold above one half. *)
Theorem blank_message_scores_half (E : Embedder)
  (faiss_search : list vec -> vec -> nat -> list (R * option nat))
  (st : MemoryStore) (labels_api : list (string * string)) (state_thr : option R)
  (msg : Message) :
  truthy (get (msg_subject msg)) = false ->
  truthy (get (msg_from msg)) = false ->
  truthy (get (msg_snippet msg)) = false ->
  ~ In "" (map fst labels_api) ->
  let score_map :=
    score_labels (get_label_centroids E st) [] (zeros dim) (map fst labels_api) [] in
  let threshold := score_threshold state_thr in
  let outcome := classify_message E faiss_search st labels_api state_thr msg in
  embed_text E (query_text msg) = zeros dim
  /\ (forall l sc, In (l, sc) score_map -> sc = 1 / 2)
  /\ max_item score_map = hd_error score_map
  /\ (forall bl bs, max_item score_map = Some (bl, bs) ->
        (threshold <= 1 / 2 ->
         outcome = Ok (Resolved {| message := msg; suggested_label := Some bl;
                                   label_id := dict_get (id_by_name_of labels_api) bl;
                                   source := Some centroid;
                                   scores := top_scores score_map |}))
        /\ (1 / 2 < threshold ->
            outcome = Ok (historical_majority E faiss_search st labels_api msg score_map))).
Proof.
  intros Hs Hf Hn Hne score_map threshold outcome.
  pose proof (blank_query E msg Hs Hf Hn) as Hq.
  pose proof (blank_not_rejected E msg Hs Hf Hn st) as Hrej.
  assert (Hhalf : forall l sc, In (l, sc) score_map -> sc = 1 / 2).
  { intros l sc. apply blank_scores. }
  split; [exact Hq|]. split; [exact Hhalf|]. split.
  - destruct score_map as [|[k v] r] eqn:Hsm; [reflexivity|]. simpl. f_equal.
    apply max_from_first. intros [k' v'] Hin. simpl.
    rewrite (Hhalf k v) by (left; reflexivity).
    apply (Hhalf k'). right. exact Hin.
  - intros bl bs Hmax.
    pose proof (classify_message_tier1 E faiss_search st labels_api state_thr msg []
                  Hrej) as Hout.
    cbv zeta in Hout. rewrite Hq in Hout.
    fold score_map threshold outcome in Hout.
    rewrite Hmax, (best_label_nonempty _ _ _ _ bl bs Hne Hmax) in Hout.
    assert (Hbs : bs = 1 / 2) by (apply (Hhalf bl); apply max_item_in; exact Hmax).
    rewrite Hout. split; intros Ht.
    + destruct (Rge_dec bs threshold) as [_|Hlow]; [reflexivity|].
      exfalso. apply Hlow. lra.
    + destruct (Rge_dec bs threshold) as [Hge|_]; [lra | reflexivity].
Qed.

(** C7, as stated, fails: the message without text is resolved by the centroid
    tier, with source [centroid], at the default threshold. *)
Lemma blank_message_resolved_by_centroid :
  embed_text stub_model (query_text blank_message) = zeros dim
  /\ exists s,
       classify_message stub_model empty_search store_A labels_A None blank_message
       = Ok (Resolved s)
       /\ source s = Some centroid /\ suggested_label s = Some "A".
Proof.
  split; [apply blank_query; reflexivity|].
  destruct (store_A_blank_resolved None) as [sc Hsc].
  - unfold score_threshold. lra.
  - eexists. split; [exact Hsc|]. split; reflexivity.
Qed.

Lemma blank_message_scores_half_witness :
  embed_text stub_model (query_text blank_message) = zeros dim.
Proof.
  refine (proj1 (blank_message_scores_half stub_model empty_search store_A labels_A None
                   blank_message _ _ _ _)).
  - reflexivity.
  - reflexivity.
  - reflexivity.
  - simpl. intros [H|[]]. discriminate.
Defined.

(** ** The weighted mean behind a centroid *)

Lemma scale_vadd (a : R) (u v : vec) : scale a (vadd u v) = vadd (scale a u) (scale a v).
Proof.
  revert v. induction u as [|x u IH]; intros [|y v]; simpl; try reflexivity.
  rewrite IH. f_equal. lra.
Qed.

Lemma scale_scale (a b : R) (v : vec) : scale a (scale b v) = scale (a * b) v.
Proof.
  unfold scale. rewrite map_map. apply map_ext. intros x. lra.
Qed.

Lemma vdiv_one (v : vec) : vdiv v 1 = v.
Proof.
  unfold vdiv. rewrite <- (map_id v) at 2. apply map_ext. intros x. lra.
Qed.

Lemma combine_normalized (vw : list (vec * R)) (W : R) :
  combine (map fst vw) (map (fun w => w / W) (map snd vw))
  = map (fun p => (fst p, snd p / W)) vw.
Proof.
  induction vw as [|[v w] vw IH]; simpl; [reflexivity|]. rewrite IH. reflexivity.
Qed.

Lemma sum_normalized (ws : list R) (W : R) :
  sum (map (fun w => w / W) ws) = sum ws / W.
Proof.
  induction ws as [|w ws IH]; simpl.
  - unfold Rdiv. ring.
  - rewrite IH. unfold Rdiv. ring.
Qed.

Lemma vsum_normalized (n : nat) (vw : list (vec * R)) (W : R) :
  vsum n (map (fun p => scale (snd p) (fst p)) (map (fun p => (fst p, snd p / W)) vw))
  = scale (/ W) (vsum n (map (fun p => scale (snd p) (fst p)) vw)).
Proof.
  unfold vsum. induction vw as [|[v w] vw IH]; simpl.
  - rewrite scale_zeros. reflexivity.
  - rewrite IH, scale_vadd, scale_scale. do 2 f_equal. unfold Rdiv. ring.
Qed.

(** The weights are normalised before [np.average] divides by their sum: the
    result is the mean of the embeddings weighted by the weights as given. *)
Lemma centroid_of_weighted_mean (vw : list (vec * R)) :
  sum (map snd vw) <> 0 ->
  centroid_of vw
  = normalize (scale (/ sum (map snd vw))
                 (vsum dim (map (fun p => scale (snd p) (fst p)) vw))).
Proof.
  intros HW. unfold centroid_of, average, normalize.
  rewrite combine_normalized, sum_normalized, vsum_normalized.
  replace (sum (map snd vw) / sum (map snd vw)) with 1
    by (unfold Rdiv; rewrite Rinv_r by exact HW; reflexivity).
  rewrite vdiv_one. reflexivity.
Qed.

Lemma row_weight_pos (r : LabeledEmail) : 0 < row_weight r.
Proof. unfold row_weight. destruct (accepted r); lra. Qed.

Lemma sum_weights_pos (rows : list LabeledEmail) :
  rows <> [] -> 0 < sum (map row_weight rows).
Proof.
  assert (H0 : forall rs, 0 <= sum (map row_weight rs)).
  { induction rs as [|r rs IH]; simpl; [lra|]. pose proof (row_weight_pos r). lra. }
  destruct rows as [|r rs]; [congruence|]. intros _. simpl.
  pose proof (row_weight_pos r). pose proof (H0 rs). lra.
Qed.

Lemma rows_of_label_nonempty (l : string) (rows : list LabeledEmail) :
  In l (map applied_label rows) ->
  filter (fun r => applied_label r =? l) rows <> [].
Proof.
  intros H. apply in_map_iff in H. destruct H as (r & Hl & Hin).
  intros Habs.
  assert (Hr : In r (filter (fun r => applied_label r =? l) rows)).
  { apply filter_In. split; [exact Hin|]. subst l. apply String.eqb_refl. }
  rewrite Habs in Hr. contradiction.
Qed.

Lemma centroid_of_rows (E : Embedder) (st : MemoryStore) (l : string) :
  In l (map applied_label (labeled_emails st)) ->
  let rows := filter (fun r => applied_label r =? l) (labeled_emails st) in
  dict_get (get_label_centroids E st) l
  = Some (normalize
            (scale (/ sum (map row_weight rows))
               (vsum dim (map (fun r => scale (row_weight r) (row_embedding E r)) rows)))).
Proof.
  intros Hl rows.
  pose proof (rows_of_label_nonempty l _ Hl) as Hne. fold rows in Hne.
  pose proof (sum_weights_pos rows Hne) as HW.
  destruct (label_entries E l (labeled_emails st)) as [|x xs] eqn:He.
  - unfold label_entries in He. fold rows in He.
    destruct rows; [congruence | discriminate].
  - rewrite (get_label_centroids_get E st l x xs He), <- He.
    unfold label_entries. fold rows.
    rewrite centroid_of_weighted_mean; rewrite !map_map; simpl.
    + reflexivity.
    + apply Rgt_not_eq. exact HW.
Qed.

(** C4, as the code has it.  Without rows the mapping is empty.  For a label
    that some row bears, the centroid is the mean [m] of the embeddings of all
    rows with that label, accepted or not, weighted 5 for an accepted row and 1
    for the others, divided by its norm plus [1e-8]: it is the zero vector when
    [m] is, and its norm is 1 up to one part in ten thousand when [m] is not
    short.  For the label of exactly one accepted and one other row it is the
    5-to-1 mean of the two embeddings, divided in the same way. *)
Theorem centroid_is_guarded_weighted_mean (E : Embedder) (st : MemoryStore) (l : string) :
  In l (map applied_label (labeled_emails st)) ->
  let rows := filter (fun r => applied_label r =? l) (labeled_emails st) in
  let m := scale (/ sum (map row_weight rows))
             (vsum dim (map (fun r => scale (row_weight r) (row_embedding E r)) rows)) in
  (forall t, labeled_emails t = [] -> get_label_centroids E t = [])
  /\ (forall r, row_weight r = if accepted r then 5 else 1)
  /\ dict_get (get_label_centroids E st) l = Some (vdiv m (norm m + eps))
  /\ (1 / 100 <= norm m -> Rabs (norm (vdiv m (norm m + eps)) - 1) <= 1 / 10000)
  /\ (m = zeros dim -> vdiv m (norm m + eps) = zeros dim)
  /\ (forall r1 r2, rows = [r1; r2] -> accepted r1 = true -> accepted r2 = false ->
        m = scale (/ 6) (vadd (scale 5 (row_embedding E r1))
                           (vadd (scale 1 (row_embedding E r2)) (zeros dim)))).
Proof.
  intros Hl rows m.
  split; [|split; [|split; [|split; [|split]]]].
  - intros t Ht. unfold get_label_centroids. rewrite Ht. reflexivity.
  - intros r. unfold row_weight. destruct (accepted r); lra.
  - apply (centroid_of_rows E st l Hl).
  - apply (norm_guarded_near_unit m).
  - intros Hm. rewrite Hm. apply vdiv_zeros.
  - intros r1 r2 Hrows Ha1 Ha2. unfold m. rewrite Hrows. simpl.
    unfold row_weight. rewrite Ha1, Ha2. unfold vsum. simpl.
    f_equal; [f_equal; lra|].
    f_equal; [|f_equal]; unfold scale; apply map_ext; intros x; lra.
Qed.

(** The centroid of [Invoices] in a store with an accepted and a pending
    invoice, both with text: the 5-to-1 mean of their embeddings, of norm 1 up
    to the tolerance. *)
Lemma centroid_is_guarded_weighted_mean_witness :
  exists c,
    dict_get (get_label_centroids stub_model store_invoices) "Invoices" = Some c
    /\ Rabs (norm c - 1) <= 1 / 10000.
Proof.
  pose proof (centroid_is_guarded_weighted_mean stub_model store_invoices "Invoices"
                (or_introl eq_refl)) as H.
  cbv zeta in H. destruct H as (_ & _ & Hc & Hn & _ & H51).
  specialize (H51 invoice invoice_pending eq_refl eq_refl eq_refl).
  change (row_embedding stub_model invoice) with (normalize (basis 1)) in H51.
  change (row_embedding stub_model invoice_pending) with (normalize (basis 1)) in H51.
  rewrite normalize_basis, zeros_dim_basis, !scale_basis, !vadd_basis, scale_basis in H51
    by lra.
  eexists. split; [exact Hc|]. apply Hn.
  rewrite H51. pose proof eps_pos as He.
  assert (Hi : 0 < / (1 + eps)) by (apply Rinv_0_lt_compat; lra).
  assert (Hx : / 6 * (5 * (1 / (1 + eps)) + (1 * (1 / (1 + eps)) + 0)) = / (1 + eps))
    by (field; lra).
  rewrite Hx, norm_basis by lra.
  apply Rmult_le_reg_r with (1 + eps); [lra|].
  rewrite Rinv_l by lra. unfold eps in *. lra.
Defined.

(** C4, as stated, fails: the centroid of label [A], whose only example has no
    text, is the zero vector, of norm 0. *)
Lemma centroid_of_blank_examples_is_zero :
  dict_get (get_label_centroids stub_model store_A) "A" = Some (zeros dim)
  /\ norm (zeros dim) = 0
  /\ norm (zeros dim) <> 1.
Proof.
  split; [|split].
  - rewrite (centroid_of_rows stub_model store_A "A") by (left; reflexivity).
    f_equal.
    change (normalize (scale (/ sum [row_weight processed_A])
                         (vadd (scale (row_weight processed_A) (zeros dim)) (zeros dim)))
            = zeros dim).
    rewrite !scale_zeros, vadd_zeros, scale_zeros.
    unfold normalize. apply vdiv_zeros.
  - apply norm_zeros.
  - rewrite norm_zeros. lra.
Qed.

(** ** Rejected labels and the first two tiers *)

Lemma single_centroid_tier (E : Embedder)
  (faiss_search : list vec -> vec -> nat -> list (R * option nat))
  (st : MemoryStore) (msg : Message) (label_names : list string) (id_by_name : dict string)
  (threshold : R) (bl : string) (bs : R) :
  let score_map :=
    score_all (get_label_centroids E st) (embed_text E (query_text msg)) label_names [] in
  max_item score_map = Some (bl, bs) ->
  bs >= threshold ->
  bl <> "" ->
  Single._classify_single_email E faiss_search st msg label_names id_by_name threshold
  = Single.Resolved {| Single.message := msg; Single.suggested_label := Some bl;
                       Single.label_id := dict_get id_by_name bl;
                       Single.source := "embedding";
                       Single.scores := top_scores score_map |}.
Proof.
  intros score_map Hmax Hge Hne. subst score_map.
  unfold Single._classify_single_email, Single.centroid_scoring.
  destruct (get_label_centroids E st) as [|kc cs] eqn:Hc.
  - rewrite score_all_eq, score_labels_no_centroids in Hmax. discriminate.
  - rewrite Hmax. destruct (Rge_dec bs threshold); [|contradiction].
    simpl. apply String.eqb_neq in Hne. rewrite Hne. reflexivity.
Qed.

(** The centroid of a label whose only example is embedded along the first
    axis lies along that axis as well. *)
Lemma centroid_of_single_basis (a w : R) :
  0 <= a -> 0 < w -> exists b, 0 <= b /\ centroid_of [(basis a, w)] = basis b.
Proof.
  intros Ha Hw. pose proof eps_pos as He.
  rewrite centroid_of_weighted_mean by (simpl; lra).
  change (sum (map snd [(basis a, w)])) with (w + 0).
  change (vsum dim (map (fun p => scale (snd p) (fst p)) [(basis a, w)]))
    with (vadd (scale w (basis a)) (zeros dim)).
  rewrite zeros_dim_basis, scale_basis, vadd_basis, scale_basis.
  assert (Hk : 0 <= / (w + 0) * (w * a + 0)).
  { assert (Hi : 0 < / (w + 0)) by (apply Rinv_0_lt_compat; lra).
    assert (Hwa : 0 <= w * a) by nra.
    apply Rmult_le_pos; lra. }
  rewrite normalize_basis by exact Hk.
  eexists. split; [|reflexivity].
  set (k := / (w + 0) * (w * a + 0)) in *.
  assert (Hi : 0 < / (k + eps)) by (apply Rinv_0_lt_compat; lra).
  unfold Rdiv. apply Rmult_le_pos; lra.
Qed.

(** C1, on the code.  Let a stored rejection be similar to the message, with
    at least one example in the store.  The rejected label belongs to the set
    that [get_rejected_labels_for_similar_emails] is to return, but the
    function raises [NameError] instead of returning it, as it never returns
    anything but the empty set; the loop body of [node_classify] ends with
    that exception, so that neither tier gives a result, with or without the
    label.  [_classify_single_email] does not ask for the rejected labels: when
    the rejected label has the best score and that score reaches the
    threshold, it is the suggestion of its centroid tier. *)
Theorem similar_rejection_is_not_excluded (E : Embedder)
  (faiss_search : list vec -> vec -> nat -> list (R * option nat))
  (st : MemoryStore) (labels_api : list (string * string)) (state_thr : option R)
  (msg : Message) (r : RejectedLabel) (x : R) :
  labeled_emails st <> [] ->
  In r (rejected_labels st) ->
  let subject' := get_default (msg_subject msg) "" in
  let sender' := get_default (msg_from msg) "" in
  let snippet' := get_default (msg_snippet msg) "" in
  let query := _embed E (join_fields [subject'; sender'; snippet']) in
  similarity query (stored_embedding E r) = Some x ->
  x >= 0.7 ->
  In (rejected_label r) (similar_rejected_labels E query 0.7 (rejected_labels st))
  /\ get_rejected_labels_for_similar_emails E st subject' sender' snippet' 0.7
     = Raise (NameError "logger")
  /\ (forall t a b c thr S,
        get_rejected_labels_for_similar_emails E t a b c thr = Ok S -> S = [])
  /\ classify_message E faiss_search st labels_api state_thr msg
     = Raise (NameError "logger")
  /\ (forall bs,
        let score_map :=
          score_all (get_label_centroids E st) (embed_text E (query_text msg))
            (map fst labels_api) [] in
        max_item score_map = Some (rejected_label r, bs) ->
        bs >= score_threshold state_thr ->
        rejected_label r <> "" ->
        Single._classify_single_email E faiss_search st msg (map fst labels_api)
          (id_by_name_of labels_api) (score_threshold state_thr)
        = Single.Resolved
            {| Single.message := msg; Single.suggested_label := Some (rejected_label r);
               Single.label_id := dict_get (id_by_name_of labels_api) (rejected_label r);
               Single.source := "embedding"; Single.scores := top_scores score_map |}).
Proof.
  intros Hrows Hin subject' sender' snippet' query Hs Hx.
  pose proof (similar_rejected_in E query 0.7 x _ r Hin Hs Hx) as Hset.
  assert (Hne : similar_rejected_labels E query 0.7 (rejected_labels st) <> []).
  { intros Habs. rewrite Habs in Hset. contradiction. }
  split; [exact Hset|]. split; [|split; [|split]].
  - rewrite get_rejected_spec. fold query.
    destruct (similar_rejected_labels E query 0.7 (rejected_labels st));
      [congruence | reflexivity].
  - intros t a b c thr S HS. apply get_rejected_ok in HS. apply HS.
  - apply similar_rejection_aborts_classification; assumption.
  - intros bs score_map. apply single_centroid_tier.
Qed.

(** The store holds the accepted invoice and a rejection of the label
    [Invoices] for a message of the same text: on a further message of that
    text the loop body of [node_classify] raises, and the single-email
    classifier suggests [Invoices]. *)
Lemma similar_rejection_is_not_excluded_witness :
  In "Invoices"
     (similar_rejected_labels stub_model
        (_embed stub_model
           (join_fields [get_default (msg_subject invoice_again) "";
                         get_default (msg_from invoice_again) "";
                         get_default (msg_snippet invoice_again) ""]))
        0.7 (rejected_labels store_declined))
  /\ classify_message stub_model empty_search store_declined labels_Invoices None
       invoice_again
     = Raise (NameError "logger")
  /\ exists s,
       Single._classify_single_email stub_model empty_search store_declined
         invoice_again (map fst labels_Invoices) (id_by_name_of labels_Invoices)
         (score_threshold None)
       = Single.Resolved s
       /\ Single.suggested_label s = Some "Invoices"
       /\ Single.source s = "embedding".
Proof.
  assert (Hsim : similarity
                   (_embed stub_model
                      (join_fields [get_default (msg_subject invoice_again) "";
                                    get_default (msg_from invoice_again) "";
                                    get_default (msg_snippet invoice_again) ""]))
                   (stored_embedding stub_model invoice_declined) = Some 1).
  { change (similarity (normalize (basis 1)) (normalize (basis 1)) = Some 1).
    apply similarity_self. apply dot_normalize_basis_pos. }
  assert (Hrows : labeled_emails store_declined <> []) by discriminate.
  assert (Hx : 1 >= 0.7) by lra.
  pose proof (similar_rejection_is_not_excluded stub_model empty_search store_declined
                labels_Invoices None invoice_again invoice_declined 1
                Hrows (or_introl eq_refl) Hsim Hx) as H.
  cbv zeta in H. destruct H as (Hset & _ & _ & Hraise & Hsingle).
  split; [exact Hset|]. split; [exact Hraise|].
  set (q := embed_text stub_model (query_text invoice_again)) in *.
  set (c := centroid_of [(row_embedding stub_model invoice, row_weight invoice)]).
  eexists. split.
  - apply (Hsingle (score01_of (dot q c))).
    + reflexivity.
    + change q with (normalize (basis 1)).
      change c with (centroid_of [(normalize (basis 1), 5.0)]).
      rewrite normalize_basis by lra.
      pose proof eps_pos as He.
      assert (Hi : 0 < / (1 + eps)) by (apply Rinv_0_lt_compat; lra).
      assert (Ha : 0 <= 1 / (1 + eps)) by (unfold Rdiv; lra).
      destruct (centroid_of_single_basis (1 / (1 + eps)) 5.0 Ha) as (b & Hb & Hc);
        [lra|].
      rewrite Hc, dot_basis. unfold score01_of, score_threshold.
      assert (Hp : 0 <= 1 / (1 + eps) * b) by (apply Rmult_le_pos; assumption).
      lra.
    + discriminate.
  - split; reflexivity.
Defined.

(** ** The fallback embedding across processes *)

Lemma embed_without_model (E : Embedder) (text : string) :
  text <> "" -> model E = None ->
  _embed E text = normalize (rng_normal E (Z.abs (py_hash E text) mod 2 ^ 32)%Z dim).
Proof.
  intros Ht Hm. unfold _embed. apply String.eqb_neq in Ht. rewrite Ht, Hm. reflexivity.
Qed.

(** C6, on the code.  Without the sentence transformer the embedding of a
    non-empty text is the normalised draw of a generator seeded with
    [abs(hash(text)) % 2**32].  Two processes that hash the text alike embed it
    alike; two processes whose hashes seed draws of different direction embed
    it differently, although text and generator are the same. *)
Theorem fallback_embedding_follows_process_hash (E1 E2 : Embedder) (text : string) :
  text <> "" ->
  model E1 = None ->
  model E2 = None ->
  rng_normal E1 = rng_normal E2 ->
  _embed E1 text = normalize (rng_normal E1 (Z.abs (py_hash E1 text) mod 2 ^ 32)%Z dim)
  /\ (py_hash E1 text = py_hash E2 text -> _embed E1 text = _embed E2 text)
  /\ (normalize (rng_normal E1 (fallback_seed E1 text) dim)
      <> normalize (rng_normal E1 (fallback_seed E2 text) dim) ->
      _embed E1 text <> _embed E2 text).
Proof.
  intros Ht H1 H2 Hrng.
  rewrite (embed_without_model E1 text Ht H1), (embed_without_model E2 text Ht H2).
  rewrite <- Hrng. unfold fallback_seed.
  split; [reflexivity|]. split.
  - intros Hh. rewrite Hh. reflexivity.
  - auto.
Qed.

Lemma fallback_embedding_follows_process_hash_witness :
  _embed (salted 0) "hello" <> _embed (salted 1) "hello".
Proof.
  refine (proj2 (proj2
    (fallback_embedding_follows_process_hash (salted 0) (salted 1) "hello" _ _ _ _)) _).
  - discriminate.
  - reflexivity.
  - reflexivity.
  - reflexivity.
  - change (normalize (basis 1) <> normalize (basis (-1))).
    unfold normalize, norm. rewrite !dot_basis.
    replace (1 * 1) with 1 by lra. replace (-1 * -1) with 1 by lra.
    rewrite sqrt_1. unfold basis, vdiv. simpl map.
    intros H. injection H as H.
    pose proof eps_pos as He.
    assert (Hi : 0 < / (1 + eps)) by (apply Rinv_0_lt_compat; lra).
    unfold Rdiv in H. nra.
Defined.

(** ** The rejection-aware flow *)

Section Resuggest.

Variable E : Embedder.
Variable LLM : Type.
Variable ollama_chat : LLM -> Prompt -> LLM * result string.
Variable decode_suggested_label : string -> result string.

(** C8, on the code.  When neither the centroids nor the stored label of the
    message give a suggestion and the first answer of the chat model is a
    rejected label, the model is asked once more, with [force_different] set;
    its second answer is returned as the suggestion without being compared to
    the rejected labels. *)
Theorem retried_suggestion_is_not_checked (st : MemoryStore) (chat0 chat1 chat2 : LLM)
  (msg : Message) (label_names : list string) (id_by_name : dict string)
  (rejected_suggestions : list string) (threshold : R)
  (content1 content2 first second : string) :
  get_label_centroids E st = [] ->
  get_label_for_message st (msg_id msg) = None ->
  ollama_chat chat0
    (build_prompt_with_rejected_context msg label_names rejected_suggestions false)
  = (chat1, Ok content1) ->
  decode_suggested_label content1 = Ok first ->
  In first rejected_suggestions ->
  ollama_chat chat1
    (build_prompt_with_rejected_context msg label_names rejected_suggestions true)
  = (chat2, Ok content2) ->
  decode_suggested_label content2 = Ok second ->
  second <> "" ->
  _classify_single_email_with_rejected E LLM ollama_chat decode_suggested_label st chat0
    msg label_names id_by_name rejected_suggestions threshold
  = (chat2, Some {| message := msg; suggested_label := Some second;
                    label_id := dict_get id_by_name second;
                    source := Some llm; scores := [] |}).
Proof.
  intros Hc Hm H1 Hd1 Hin H2 Hd2 Hne.
  unfold _classify_single_email_with_rejected, centroid_scoring_rejected.
  rewrite Hc, Hm. simpl.
  unfold generative_with_rejected. rewrite H1, Hd1.
  apply mem_true_iff in Hin. rewrite Hin, H2, Hd2.
  unfold llm_suggestion. apply String.eqb_neq in Hne. rewrite Hne. reflexivity.
Qed.

End Resuggest.

Lemma retried_suggestion_is_not_checked_witness :
  _classify_single_email_with_rejected stub_model nat stubborn_chat decode_plain
    empty_store 0%nat invoice_message ["A"; "B"] [("A", "Label_1"); ("B", "Label_2")]
    ["A"] 0.35
  = (2%nat, Some {| message := invoice_message; suggested_label := Some "A";
                    label_id := Some "Label_1"; source := Some llm; scores := [] |}).
Proof.
  refine (retried_suggestion_is_not_checked stub_model nat stubborn_chat decode_plain
            empty_store 0%nat 1%nat 2%nat invoice_message ["A"; "B"]
            [("A", "Label_1"); ("B", "Label_2")] ["A"] 0.35 "A" "A" "A" "A"
            _ _ _ _ _ _ _ _).
  - reflexivity.
  - reflexivity.
  - reflexivity.
  - reflexivity.
  - left. reflexivity.
  - reflexivity.
  - reflexivity.
  - discriminate.
Defined.

(** * Further properties of the store *)

(** ** The index after an upsert *)

Lemma similar_in_ids (E : Embedder)
  (faiss_search : list vec -> vec -> nat -> list (R * option nat))
  (st : MemoryStore) (a b c : option string) (k : nat) (m : string) (sc : R) :
  In (m, sc) (similar E faiss_search st a b c k) ->
  m <> "" /\ In m (ids st) /\ index st <> [].
Proof.
  unfold similar. destruct (index st) as [|v vs] eqn:Hi; [contradiction|].
  intros H. apply in_flat_map in H. destruct H as ([score idx] & _ & H). simpl in H.
  destruct idx as [idx|]; [|contradiction].
  destruct (nth_error (ids st) idx) as [m'|] eqn:Hn; [|contradiction].
  destruct (m' =? "") eqn:He; [contradiction|].
  destruct H as [H|[]]. inversion H; subst.
  split; [apply String.eqb_neq; exact He|].
  split; [eapply nth_error_In; exact Hn | discriminate].
Qed.

Lemma upsert_index (E : Embedder) (st : MemoryStore) (email : LabeledEmail) :
  let st' := upsert_labeled_email E st email in
  let rows := filter accepted (labeled_emails st') in
  labeled_emails st' = upsert_row email (labeled_emails st)
  /\ index st' = map (row_embedding E) rows
  /\ (rows <> [] -> ids st' = map message_id rows).
Proof.
  unfold upsert_labeled_email, _rebuild_index. simpl.
  destruct (filter accepted (upsert_row email (labeled_emails st))) as [|r rs] eqn:Hf;
    simpl; rewrite Hf; repeat split; congruence.
Qed.

(** X1.  Right after [upsert_labeled_email] the index holds one embedding per
    accepted row, in the order of the table, and every message that [similar]
    returns is a non-empty id of an accepted row of the table. *)
Theorem similar_after_upsert_returns_accepted (E : Embedder)
  (faiss_search : list vec -> vec -> nat -> list (R * option nat))
  (st : MemoryStore) (email : LabeledEmail) (a b c : option string) (k : nat)
  (m : string) (sc : R) :
  let st' := upsert_labeled_email E st email in
  In (m, sc) (similar E faiss_search st' a b c k) ->
  index st' = map (row_embedding E) (filter accepted (labeled_emails st'))
  /\ m <> ""
  /\ exists r, In r (labeled_emails st') /\ accepted r = true /\ message_id r = m.
Proof.
  intros st' H.
  destruct (upsert_index E st email) as (_ & Hidx & Hids). fold st' in Hidx, Hids.
  apply similar_in_ids in H. destruct H as (Hne & Hin & Hnonempty).
  split; [exact Hidx|]. split; [exact Hne|].
  rewrite Hids in Hin.
  - apply in_map_iff in Hin. destruct Hin as (r & Hr & Hrin).
    apply filter_In in Hrin. exists r. tauto.
  - intros Habs. rewrite Habs in Hidx. contradiction.
Qed.

Lemma similar_after_upsert_returns_accepted_witness :
  exists r, In r (labeled_emails (upsert_labeled_email stub_model empty_store invoice))
            /\ accepted r = true /\ message_id r = "m1".
Proof.
  refine (proj2 (proj2
    (similar_after_upsert_returns_accepted stub_model first_row_search empty_store invoice
       (Some "Invoice 42") None None 5 "m1" 1 _))).
  left. reflexivity.
Defined.

(** X2.  [mark_email_processed] does not rebuild the index: after an accepted
    email was upserted, marking the same message as processed with
    [accepted] false leaves its id and its embedding in the index, although no
    row of that id is accepted any more. *)
Theorem mark_email_processed_leaves_index_stale (E : Embedder) (st : MemoryStore)
  (email : LabeledEmail) (lbl : string) :
  accepted email = true ->
  let st1 := upsert_labeled_email E st email in
  let st2 := fst (mark_email_processed st1 (message_id email) lbl false) in
  index st2 = index st1
  /\ ids st2 = ids st1
  /\ In (message_id email) (ids st2)
  /\ (forall r, In r (labeled_emails st2) -> message_id r = message_id email ->
                accepted r = false).
Proof.
  intros Hacc st1 st2.
  destruct (upsert_index E st email) as (Htab & _ & Hids). fold st1 in Htab, Hids.
  assert (Hin : In email (filter accepted (labeled_emails st1))).
  { apply filter_In. split; [|exact Hacc]. rewrite Htab.
    clear. induction (labeled_emails st) as [|r rs IH]; simpl; [auto|].
    destruct (message_id r =? message_id email); simpl; auto. }
  split; [reflexivity|]. split; [reflexivity|]. split.
  - unfold st2. simpl. rewrite Hids.
    + apply in_map. exact Hin.
    + intros Habs. rewrite Habs in Hin. contradiction.
  - intros r Hr Hid. unfold st2 in Hr. simpl in Hr. unfold insert_or_replace in Hr.
    apply in_app_or in Hr. destruct Hr as [Hr|[Hr|[]]].
    + apply filter_In in Hr. destruct Hr as [_ Hr]. simpl in Hr.
      rewrite Hid, String.eqb_refl in Hr. discriminate.
    + subst r. reflexivity.
Qed.

Lemma mark_email_processed_leaves_index_stale_witness :
  In (message_id invoice)
     (ids (fst (mark_email_processed (upsert_labeled_email stub_model empty_store invoice)
                  (message_id invoice) "Spam" false))).
Proof.
  exact (proj1 (proj2 (proj2
    (mark_email_processed_leaves_index_stale stub_model empty_store invoice "Spam"
       eq_refl)))).
Defined.

(** ** Lookups by message id *)

Lemma upsert_row_ids_in (email : LabeledEmail) (rows : list LabeledEmail) (m : string) :
  In m (map message_id (upsert_row email rows))
  <-> In m (map message_id rows) \/ m = message_id email.
Proof.
  rewrite upsert_row_ids.
  destruct (mem (message_id email) (map message_id rows)) eqn:Hm.
  - apply mem_true_iff in Hm. split; [auto|]. intros [H|H]; [auto | subst; auto].
  - rewrite in_app_iff. simpl. intuition.
Qed.

Lemma upsert_tables (E : Embedder) (st : MemoryStore) (email : LabeledEmail) :
  labeled_emails (upsert_labeled_email E st email) = upsert_row email (labeled_emails st)
  /\ rejected_labels (upsert_labeled_email E st email) = rejected_labels st.
Proof.
  unfold upsert_labeled_email.
  destruct (rebuild_index_tables E
              {| labeled_emails := upsert_row email (labeled_emails st);
                 rejected_labels := rejected_labels st;
                 index := index st; ids := ids st |}) as [Hl Hr].
  auto.
Qed.

Lemma upsert_row_first (email : LabeledEmail) (rows : list LabeledEmail) :
  exists rest,
    filter (fun r => message_id r =? message_id email) (upsert_row email rows)
    = email :: rest.
Proof.
  induction rows as [|r rs IH]; simpl.
  - rewrite String.eqb_refl. eauto.
  - destruct (message_id r =? message_id email) eqn:Hr; simpl.
    + rewrite String.eqb_refl. eauto.
    + rewrite Hr. exact IH.
Qed.

(** X3.  [get_label_for_message] reads back what was written last: after
    [upsert_labeled_email] the label of the email, after
    [mark_email_processed] the label given there; it answers [None] exactly
    for the ids that [get_processed_email_ids] does not list, and for a
    missing id. *)
Theorem get_label_for_message_reads_back (E : Embedder) (st : MemoryStore)
  (email : LabeledEmail) (m lbl : string) (acc : bool) :
  get_label_for_message (upsert_labeled_email E st email) (Some (message_id email))
  = Some (applied_label email)
  /\ get_label_for_message (fst (mark_email_processed st m lbl acc)) (Some m) = Some lbl
  /\ (get_label_for_message st (Some m) = None <-> ~ In m (get_processed_email_ids st))
  /\ get_label_for_message st None = None.
Proof.
  split; [|split; [|split]].
  - unfold get_label_for_message. rewrite (proj1 (upsert_tables E st email)).
    destruct (upsert_row_first email (labeled_emails st)) as [rest Hrest].
    rewrite Hrest. reflexivity.
  - unfold get_label_for_message. simpl.
    rewrite (insert_or_replace_lookup
               {| message_id := m; subject := None; sender := None; snippet := None;
                  applied_label := lbl; accepted := acc |}).
    reflexivity.
  - rewrite processed_iff. unfold get_label_for_message.
    destruct (filter (fun r => message_id r =? m) (labeled_emails st)) as [|r rs] eqn:Hf.
    + split; [|reflexivity]. intros _ Hin.
      apply in_map_iff in Hin. destruct Hin as (r & Hr & Hin).
      assert (Hr' : In r (filter (fun r => message_id r =? m) (labeled_emails st))).
      { apply filter_In. split; [exact Hin|]. apply String.eqb_eq. exact Hr. }
      rewrite Hf in Hr'. contradiction.
    + split; [discriminate|]. intros Hn. exfalso. apply Hn.
      assert (Hr' : In r (filter (fun r => message_id r =? m) (labeled_emails st)))
        by (rewrite Hf; left; reflexivity).
      apply filter_In in Hr'. destruct Hr' as [Hin Hr].
      apply String.eqb_eq in Hr. subst m. apply in_map. exact Hin.
  - reflexivity.
Qed.

(** ** Processed messages and the key of [labeled_emails] *)

Lemma insert_or_replace_NoDup (row : LabeledEmail) (rows : list LabeledEmail) :
  NoDup (map message_id rows) ->
  NoDup (map message_id (insert_or_replace row rows)).
Proof.
  intros H1. unfold insert_or_replace. rewrite map_app. simpl.
  apply NoDup_app.
  - induction rows as [|r rs IH]; simpl; [constructor|].
    inversion H1 as [|? ? Hn Hrs]; subst.
    destruct (negb (message_id r =? message_id row)); simpl; [|auto].
    constructor; [|auto]. intros Habs. apply Hn.
    apply in_map_iff in Habs. destruct Habs as (r' & Hr' & Hin).
    apply filter_In in Hin. apply in_map_iff. exists r'. tauto.
  - repeat constructor. intros [].
  - intros x Hx [Hx'|[]]. subst x.
    apply in_map_iff in Hx. destruct Hx as (r & Hr & Hin).
    apply filter_In in Hin. destruct Hin as [_ Hin].
    rewrite Hr, String.eqb_refl in Hin. discriminate.
Qed.

Section Ingestion.

Variable E : Embedder.
Variable gmail_get_message_by_id : string -> result Message.
Variable gmail_list_labels : result (list (string * string)).
Variable approvals : dict Decision.

(** The store that [mark_email_processed] finds in [apply_suggestion]. *)
Lemma apply_suggestion_shape (st : MemoryStore) (s : Suggestion) (mid : string) :
  msg_id (message s) = Some mid ->
  exists st1 lbl acc,
    apply_suggestion E gmail_get_message_by_id approvals st s
    = fst (mark_email_processed st1 mid lbl acc)
    /\ (st1 = st
        \/ (exists email, message_id email = mid /\ st1 = upsert_labeled_email E st email)
        \/ (exists a b c l, st1 = fst (store_rejected_label st mid a b c l))).
Proof.
  intros Hid. unfold apply_suggestion. rewrite Hid.
  do 3 eexists. split; [reflexivity|].
  destruct (_ && truthy _).
  - right. left. eexists. split; [|reflexivity]. reflexivity.
  - destruct (_ && truthy _).
    + right. right. do 4 eexists. reflexivity.
    + left. reflexivity.
Qed.

Lemma apply_suggestion_ids (st : MemoryStore) (s : Suggestion) (m : string) :
  In m (map message_id (labeled_emails st)) \/ msg_id (message s) = Some m ->
  In m (map message_id
          (labeled_emails (apply_suggestion E gmail_get_message_by_id approvals st s))).
Proof.
  destruct (msg_id (message s)) as [mid|] eqn:Hid.
  - destruct (apply_suggestion_shape st s mid Hid) as (st1 & lbl & acc & Heq & Hst1).
    rewrite Heq. simpl. intros H. apply insert_or_replace_ids. simpl.
    destruct H as [H|H]; [|inversion H; auto].
    left. destruct Hst1 as [Hs|[(email & _ & Hs)|(a & b & c & l & Hs)]]; subst st1.
    + exact H.
    + rewrite (proj1 (upsert_tables E st email)). apply upsert_row_ids_in. auto.
    + exact H.
  - unfold apply_suggestion. rewrite Hid. intros [H|H]; [exact H | discriminate].
Qed.

Lemma apply_suggestion_NoDup (st : MemoryStore) (s : Suggestion) :
  NoDup (map message_id (labeled_emails st)) ->
  NoDup (map message_id
           (labeled_emails (apply_suggestion E gmail_get_message_by_id approvals st s))).
Proof.
  intros Hnd.
  destruct (msg_id (message s)) as [mid|] eqn:Hid.
  - destruct (apply_suggestion_shape st s mid Hid) as (st1 & lbl & acc & Heq & Hst1).
    rewrite Heq. simpl.
    assert (H1 : NoDup (map message_id (labeled_emails st1))).
    { destruct Hst1 as [Hs|[(email & _ & Hs)|(a & b & c & l & Hs)]]; subst st1.
      - exact Hnd.
      - rewrite (proj1 (upsert_tables E st email)). apply upsert_row_NoDup. exact Hnd.
      - exact Hnd. }
    apply (insert_or_replace_NoDup
             {| message_id := mid; subject := None; sender := None; snippet := None;
                applied_label := lbl; accepted := acc |}).
    exact H1.
  - unfold apply_suggestion. rewrite Hid. exact Hnd.
Qed.

(** X4.  When the provider lists its labels, [node_apply_and_update] leaves no
    suggestion unprocessed and forgets nothing: every id that
    [get_processed_email_ids] listed before is listed afterwards, and so is the
    id of every suggestion whose message has one, whether the decision was an
    approval, a rejection or missing.  When listing the labels raises, no
    suggestion is handled and the store stays as it was. *)
Theorem node_apply_and_update_marks_every_suggestion (st : MemoryStore)
  (suggestions : list Suggestion) (m : string) :
  let st' := node_apply_and_update E gmail_get_message_by_id gmail_list_labels approvals
               st suggestions in
  (forall labels_api, gmail_list_labels = Ok labels_api ->
     In m (get_processed_email_ids st)
     \/ (exists s, In s suggestions /\ msg_id (message s) = Some m) ->
     In m (get_processed_email_ids st'))
  /\ (forall e, gmail_list_labels = Raise e -> st' = st).
Proof.
  intros st'. subst st'. unfold node_apply_and_update. split.
  - intros labels_api Hlabels. rewrite Hlabels. rewrite !processed_iff.
    revert st. induction suggestions as [|s0 rest IH]; simpl; intros st H.
    + destruct H as [H|(s & [] & _)]. exact H.
    + apply IH. destruct H as [H|(s & [Hs|Hs] & Hid)].
      * left. apply apply_suggestion_ids. auto.
      * subst s0. left. apply apply_suggestion_ids. auto.
      * right. eauto.
  - intros e Hlabels. rewrite Hlabels. reflexivity.
Qed.

(** X5.  The key of [labeled_emails] stays a key: when no two rows share a
    message id, none do after [upsert_labeled_email], after
    [mark_email_processed], after [store_rejected_label] or after a whole
    [node_apply_and_update]. *)
Theorem message_id_stays_unique (st : MemoryStore) (email : LabeledEmail)
  (m lbl : string) (acc : bool) (a b c : option string) (suggestions : list Suggestion) :
  NoDup (map message_id (labeled_emails st)) ->
  let unique (t : MemoryStore) := NoDup (map message_id (labeled_emails t)) in
  unique (upsert_labeled_email E st email)
  /\ unique (fst (mark_email_processed st m lbl acc))
  /\ unique (fst (store_rejected_label st m a b c lbl))
  /\ unique (node_apply_and_update E gmail_get_message_by_id gmail_list_labels approvals
               st suggestions).
Proof.
  intros Hnd unique. unfold unique.
  split; [|split; [|split]].
  - rewrite (proj1 (upsert_tables E st email)). apply upsert_row_NoDup. exact Hnd.
  - simpl.
    apply (insert_or_replace_NoDup
             {| message_id := m; subject := None; sender := None; snippet := None;
                applied_label := lbl; accepted := acc |}).
    exact Hnd.
  - exact Hnd.
  - unfold node_apply_and_update.
    destruct gmail_list_labels as [labels_api|e]; [|exact Hnd].
    revert st Hnd.
    induction suggestions as [|s0 rest IH]; simpl; intros st Hnd; [exact Hnd|].
    apply IH. apply apply_suggestion_NoDup. exact Hnd.
Qed.

End Ingestion.

Lemma node_apply_and_update_marks_every_suggestion_witness :
  In "m1" (get_processed_email_ids
             (node_apply_and_update stub_model no_gmail gmail_lists_A reject_m1 store_A
                [suggestion_for invoice_message "Spam"]))
  /\ node_apply_and_update stub_model no_gmail gmail_unauthenticated reject_m1 store_A
       [suggestion_for invoice_message "Spam"]
     = store_A.
Proof.
  split.
  - apply (proj1 (node_apply_and_update_marks_every_suggestion stub_model no_gmail
                    gmail_lists_A reject_m1 store_A
                    [suggestion_for invoice_message "Spam"] "m1") labels_A eq_refl).
    right. exists (suggestion_for invoice_message "Spam").
    split; [left; reflexivity | reflexivity].
  - apply (proj2 (node_apply_and_update_marks_every_suggestion stub_model no_gmail
                    gmail_unauthenticated reject_m1 store_A
                    [suggestion_for invoice_message "Spam"] "m1") ExternalError eq_refl).
Defined.

Lemma message_id_stays_unique_witness :
  NoDup (map message_id
           (labeled_emails
              (node_apply_and_update stub_model no_gmail gmail_lists_A approve_m1 store_A
                 [suggestion_for invoice_message "Invoices"]))).
Proof.
  refine (proj2 (proj2 (proj2
    (message_id_stays_unique stub_model no_gmail gmail_lists_A approve_m1 store_A invoice
       "m1" "A" true None None None [suggestion_for invoice_message "Invoices"] _)))).
  repeat constructor; simpl; intuition.
Defined.

Lemma get_label_for_message_reads_back_witness :
  get_label_for_message store_A (Some "m1") = None.
Proof.
  apply (proj2 (proj1 (proj2 (proj2
    (get_label_for_message_reads_back stub_model store_A invoice "m1" "A" true))))).
  simpl. intros [H|[]]. discriminate.
Defined.

(** * Further properties of the scoring *)

(** ** The labels that have a centroid *)

Lemma centroids_of_some (accum : dict (list (vec * R))) (l : string) (c : vec) :
  dict_get (centroids_of accum) l = Some c ->
  exists vw, In (l, vw) accum /\ c = centroid_of vw.
Proof.
  induction accum as [|[k ys] accum IH]; simpl; intros H; [discriminate|].
  destruct ys as [|y ys].
  - destruct (IH H) as (vw & Hin & Hc). eauto.
  - simpl in H. destruct (k =? l) eqn:Hk.
    + apply String.eqb_eq in Hk. subst k. inversion H. eauto.
    + destruct (IH H) as (vw & Hin & Hc). eauto.
Qed.

Lemma centroids_of_keys (accum : dict (list (vec * R))) :
  (forall k, In k (keys (centroids_of accum)) -> In k (keys accum))
  /\ (NoDup (keys accum) -> NoDup (keys (centroids_of accum))).
Proof.
  induction accum as [|[k ys] accum [IHin IHnd]]; simpl.
  - split; [auto | intros; constructor].
  - destruct ys as [|y ys]; simpl.
    + split; [auto|]. intros H. inversion H; auto.
    + split.
      * intros k' [Hk|Hk]; auto.
      * intros H. inversion H as [|? ? Hn Hrest]; subst.
        constructor; auto.
Qed.

Lemma setdefault_append_keys {V : Type} (accum : dict (list V)) (l : string) (x : V) :
  keys (setdefault_append accum l x)
  = if mem l (keys accum) then keys accum else keys accum ++ [l].
Proof.
  unfold mem, keys. induction accum as [|[k xs] accum IH]; simpl; [reflexivity|].
  rewrite (String.eqb_sym l k).
  destruct (k =? l) eqn:Hk; simpl; [reflexivity|].
  rewrite IH. destruct (existsb _ _); reflexivity.
Qed.

Lemma accumulate_keys_NoDup (E : Embedder) (rows : list LabeledEmail)
  (accum : dict (list (vec * R))) :
  NoDup (keys accum) -> NoDup (keys (accumulate E rows accum)).
Proof.
  revert accum. induction rows as [|r rs IH]; simpl; intros accum H; [exact H|].
  apply IH. rewrite setdefault_append_keys.
  destruct (mem (applied_label r) (keys accum)) eqn:Hm; [exact H|].
  apply NoDup_app; [exact H | repeat constructor; intros [] |].
  intros x Hx [Hx'|[]]. subst x. apply mem_true_iff in Hx. congruence.
Qed.

(** X6.  The centroids are those of the labels in the table, one each: a
    label has a centroid exactly when some row bears it, and no label appears
    twice in the mapping. *)
Theorem centroid_labels_are_stored_labels (E : Embedder) (st : MemoryStore) (l : string) :
  (dict_get (get_label_centroids E st) l <> None
   <-> In l (map applied_label (labeled_emails st)))
  /\ NoDup (keys (get_label_centroids E st)).
Proof.
  split.
  - split.
    + intros H. unfold get_label_centroids in H.
      destruct (labeled_emails st) as [|r rs] eqn:Hrows; [contradiction H; reflexivity|].
      destruct (dict_get (centroids_of (accumulate E (r :: rs) [])) l) as [c|] eqn:Hc;
        [|contradiction H; reflexivity].
      apply centroids_of_some in Hc. destruct Hc as (vw & Hin & _).
      apply dict_in_get in Hin. destruct Hin as [v' Hv'].
      rewrite accumulate_get in Hv'. simpl dict_get in Hv'.
      destruct (label_entries E l (r :: rs)) as [|e es] eqn:He; [discriminate|].
      unfold label_entries in He.
      destruct (filter (fun r0 => applied_label r0 =? l) (r :: rs)) as [|r0 rs0] eqn:Hf;
        [discriminate|].
      assert (Hr0 : In r0 (filter (fun r0 => applied_label r0 =? l) (r :: rs)))
        by (rewrite Hf; left; reflexivity).
      apply filter_In in Hr0. destruct Hr0 as [Hin0 Hl0].
      apply String.eqb_eq in Hl0. subst l. apply in_map. exact Hin0.
    + intros H. rewrite (centroid_of_rows E st l H). discriminate.
  - unfold get_label_centroids.
    destruct (labeled_emails st) as [|r rs]; [constructor|].
    apply centroids_of_keys. apply accumulate_keys_NoDup. constructor.
Qed.

Lemma centroid_labels_are_stored_labels_witness :
  dict_get (get_label_centroids stub_model store_A) "A" <> None.
Proof.
  apply (proj2 (proj1 (centroid_labels_are_stored_labels stub_model store_A "A"))).
  left. reflexivity.
Defined.

(** * Further properties of the classifiers *)

(** ** The majority vote *)

Lemma dict_set_keys {V : Type} (d : dict V) (k : string) (v : V) :
  keys (dict_set d k v) = if mem k (keys d) then keys d else keys d ++ [k].
Proof.
  unfold mem, keys. induction d as [|[k0 v0] d IH]; simpl; [reflexivity|].
  rewrite (String.eqb_sym k k0).
  destruct (k0 =? k) eqn:Hk; simpl; [reflexivity|].
  rewrite IH. destruct (existsb _ _); reflexivity.
Qed.

Lemma dict_set_keys_NoDup {V : Type} (d : dict V) (k : string) (v : V) :
  NoDup (keys d) -> NoDup (keys (dict_set d k v)).
Proof.
  intros H. rewrite dict_set_keys.
  destruct (mem k (keys d)) eqn:Hm; [exact H|].
  apply NoDup_app; [exact H | repeat constructor; intros [] |].
  intros x Hx [Hx'|[]]. subst x. apply mem_true_iff in Hx. congruence.
Qed.

Lemma dict_get_in {V : Type} (d : dict V) (k : string) (v : V) :
  dict_get d k = Some v -> In (k, v) d.
Proof.
  induction d as [|[k0 v0] d IH]; simpl; intros H; [discriminate|].
  destruct (k0 =? k) eqn:Hk.
  - apply String.eqb_eq in Hk. inversion H. subst. auto.
  - auto.
Qed.

Lemma dict_NoDup_get {V : Type} (d : dict V) (k : string) (v : V) :
  NoDup (keys d) -> In (k, v) d -> dict_get d k = Some v.
Proof.
  induction d as [|[k0 v0] d IH]; simpl; intros Hnd Hin; [contradiction|].
  inversion Hnd as [|? ? Hn Hrest]; subst.
  destruct Hin as [Hin|Hin].
  - inversion Hin; subst. rewrite String.eqb_refl. reflexivity.
  - destruct (k0 =? k) eqn:Hk; [|auto].
    apply String.eqb_eq in Hk. subst k0. exfalso. apply Hn.
    apply in_map_iff. exists (k, v). auto.
Qed.

Lemma max_from_nat_spec (best : string * nat) (rest : list (string * nat)) :
  In (max_from_nat best rest) (best :: rest)
  /\ forall kv, In kv (best :: rest) -> (snd kv <= snd (max_from_nat best rest))%nat.
Proof.
  revert best. induction rest as [|kv r IH]; intros best; simpl.
  - split; [auto|]. intros kv [H|[]]. subst. lia.
  - destruct (snd best <? snd kv)%nat eqn:Hlt.
    + apply Nat.ltb_lt in Hlt. destruct (IH kv) as [Hin Hmax]. split.
      * destruct Hin as [Hin|Hin]; auto.
      * intros kv' [H|[H|H]].
        -- subst kv'. specialize (Hmax kv (or_introl eq_refl)). lia.
        -- subst kv'. apply Hmax. left. reflexivity.
        -- apply Hmax. right. exact H.
    + apply Nat.ltb_ge in Hlt. destruct (IH best) as [Hin Hmax]. split.
      * destruct Hin as [Hin|Hin]; auto.
      * intros kv' [H|[H|H]].
        -- subst kv'. apply Hmax. left. reflexivity.
        -- subst kv'. specialize (Hmax best (or_introl eq_refl)). lia.
        -- apply Hmax. right. exact H.
Qed.

(** How often a label occurs among the examples. *)
Lemma count_labels_get (exs : list LabeledEmail) (counts : dict nat) (l : string) :
  l <> "" ->
  dict_get (count_labels exs counts) l
  = match dict_get counts l with
    | Some b => Some (b + count_occ string_dec (map applied_label exs) l)%nat
    | None =>
        match count_occ string_dec (map applied_label exs) l with
        | O => None
        | S n => Some (S n)
        end
    end.
Proof.
  intros Hl. revert counts. induction exs as [|ex exs IH]; intros counts; simpl.
  - destruct (dict_get counts l); [f_equal; lia | reflexivity].
  - destruct (applied_label ex =? "") eqn:He.
    + apply String.eqb_eq in He.
      destruct (string_dec (applied_label ex) l) as [Heq|_]; [congruence|]. apply IH.
    + rewrite IH, dict_get_set.
      destruct (string_dec (applied_label ex) l) as [Heq|Hne].
      * rewrite Heq, String.eqb_refl.
        destruct (dict_get counts l); f_equal; lia.
      * apply String.eqb_neq in Hne. rewrite Hne.
        destruct (dict_get counts l); reflexivity.
Qed.

Lemma count_labels_empty_key (exs : list LabeledEmail) (counts : dict nat) :
  dict_get (count_labels exs counts) "" = dict_get counts "".
Proof.
  revert counts. induction exs as [|ex exs IH]; intros counts; simpl; [reflexivity|].
  destruct (applied_label ex =? "") eqn:He; [apply IH|].
  rewrite IH, dict_get_set, He. reflexivity.
Qed.

Lemma count_labels_NoDup (exs : list LabeledEmail) (counts : dict nat) :
  NoDup (keys counts) -> NoDup (keys (count_labels exs counts)).
Proof.
  revert counts. induction exs as [|ex exs IH]; intros counts H; simpl; [exact H|].
  destruct (applied_label ex =? ""); [auto|].
  apply IH. apply dict_set_keys_NoDup. exact H.
Qed.

Lemma majority_spec (exs : list LabeledEmail) (l : string) :
  majority_label_from_similar exs = Some l ->
  l <> "" /\ In l (map applied_label exs)
  /\ forall l', l' <> "" ->
       (count_occ string_dec (map applied_label exs) l'
        <= count_occ string_dec (map applied_label exs) l)%nat.
Proof.
  unfold majority_label_from_similar, max_item_nat.
  destruct (count_labels exs []) as [|kv0 r] eqn:Hd; [discriminate|].
  destruct (max_from_nat kv0 r) as [best n] eqn:Hmax. intros H. inversion H; subst best.
  destruct (max_from_nat_spec kv0 r) as [Hin Hle]. rewrite Hmax in Hin, Hle.
  rewrite <- Hd in Hin, Hle.
  assert (Hnd : NoDup (keys (count_labels exs []))) by (apply count_labels_NoDup; constructor).
  pose proof (dict_NoDup_get _ _ _ Hnd Hin) as Hget.
  assert (Hne : l <> "").
  { intros Habs. subst l. rewrite count_labels_empty_key in Hget. discriminate. }
  rewrite (count_labels_get exs [] l Hne) in Hget. simpl dict_get in Hget.
  destruct (count_occ string_dec (map applied_label exs) l) as [|c] eqn:Hc; [discriminate|].
  inversion Hget; subst n.
  split; [exact Hne|]. split.
  - apply (count_occ_In string_dec). lia.
  - intros l' Hl'.
    destruct (count_occ string_dec (map applied_label exs) l') as [|c'] eqn:Hc'; [lia|].
    assert (Hget' : dict_get (count_labels exs []) l' = Some (S c')).
    { rewrite (count_labels_get exs [] l' Hl'). simpl dict_get. rewrite Hc'. reflexivity. }
    apply dict_get_in in Hget'. specialize (Hle _ Hget'). simpl in Hle. exact Hle.
Qed.

Lemma count_labels_blank (exs : list LabeledEmail) (counts : dict nat) :
  (forall ex, In ex exs -> applied_label ex = "") -> count_labels exs counts = counts.
Proof.
  induction exs as [|ex exs IH]; simpl; intros H; [reflexivity|].
  rewrite (H ex (or_introl eq_refl)). simpl. apply IH. auto.
Qed.

Lemma single_majority_eq (exs : list LabeledEmail) :
  Single.majority_label_from_similar exs = majority_label_from_similar exs.
Proof. destruct exs; reflexivity. Qed.

(** X8.  The majority vote returns a plurality label: a non-empty label of
    one of the examples that no other non-empty label outnumbers; it returns
    [None] exactly when no example carries a non-empty label.  The copy in
    [_classify_single_email], with its early return, computes the same. *)
Theorem majority_label_is_plurality (exs : list LabeledEmail) :
  (forall l, majority_label_from_similar exs = Some l ->
     l <> "" /\ In l (map applied_label exs)
     /\ forall l', l' <> "" ->
          (count_occ string_dec (map applied_label exs) l'
           <= count_occ string_dec (map applied_label exs) l)%nat)
  /\ (majority_label_from_similar exs = None
      <-> forall ex, In ex exs -> applied_label ex = "")
  /\ Single.majority_label_from_similar exs = majority_label_from_similar exs.
Proof.
  split; [apply majority_spec|]. split; [|apply single_majority_eq].
  split.
  - intros Hnone ex Hin.
    destruct (string_dec (applied_label ex) "") as [He|He]; [exact He|]. exfalso.
    assert (Hc : (0 < count_occ string_dec (map applied_label exs) (applied_label ex))%nat).
    { apply (count_occ_In string_dec). apply in_map. exact Hin. }
    pose proof (count_labels_get exs [] _ He) as Hget. simpl dict_get in Hget.
    destruct (count_occ string_dec (map applied_label exs) (applied_label ex)); [lia|].
    unfold majority_label_from_similar, max_item_nat in Hnone.
    destruct (count_labels exs []) as [|kv0 r]; [discriminate|].
    destruct (max_from_nat kv0 r). discriminate.
  - intros H. unfold majority_label_from_similar.
    rewrite count_labels_blank by exact H. reflexivity.
Qed.

Lemma majority_label_is_plurality_witness :
  "Invoices" <> "" /\ In "Invoices" (map applied_label [processed_A; invoice; invoice]).
Proof.
  destruct (proj1 (majority_label_is_plurality [processed_A; invoice; invoice])
              "Invoices" eq_refl) as (H1 & H2 & _).
  split; [exact H1 | exact H2].
Defined.

(** ** The historical-majority tier *)

(** X9.  What the historical-majority tier suggests is a non-empty label that
    the mail provider knows and that a row of the table bears, the row of a
    message that the index lists; of the scores of the centroid tier it passes
    on the ten best, as rounded percentages.  With an empty index the tier
    hands over to the generative tier without examples. *)
Theorem historical_majority_suggests_stored_label (E : Embedder)
  (faiss_search : list vec -> vec -> nat -> list (R * option nat))
  (st : MemoryStore) (labels_api : list (string * string)) (msg : Message)
  (sm : dict R) :
  (forall s, historical_majority E faiss_search st labels_api msg sm = Resolved s ->
     source s = Some memory_similar /\ scores s = top_scores sm /\ message s = msg
     /\ exists l, suggested_label s = Some l /\ l <> ""
                  /\ In l (map fst labels_api)
                  /\ exists r, In r (labeled_emails st) /\ applied_label r = l
                               /\ In (message_id r) (ids st))
  /\ (index st = [] ->
      historical_majority E faiss_search st labels_api msg sm = Generative []).
Proof.
  split.
  - intros s H. unfold historical_majority in H.
    set (similar_ids := map fst (similar E faiss_search st _ _ _ 5)) in H.
    destruct (majority_label_from_similar (get_messages_by_ids st similar_ids))
      as [l|] eqn:Hmaj; [|discriminate].
    simpl in H. destruct (negb (l =? "")) eqn:Hne; [|discriminate].
    destruct (mem l (map fst labels_api)) eqn:Hmem; [|discriminate].
    simpl in H. inversion H; subst s; simpl.
    repeat split. exists l.
    apply negb_true_iff, String.eqb_neq in Hne. apply mem_true_iff in Hmem.
    repeat split; try assumption.
    apply majority_spec in Hmaj. destruct Hmaj as (_ & Hin & _).
    apply in_map_iff in Hin. destruct Hin as (r & Hr & Hin).
    unfold get_messages_by_ids in Hin.
    destruct similar_ids as [|i is'] eqn:Hids; [contradiction|].
    apply order_by_id_In, filter_In in Hin. destruct Hin as [Hin Hm].
    exists r. repeat split; try assumption.
    apply mem_true_iff in Hm. rewrite <- Hids in Hm. unfold similar_ids in Hm.
    apply in_map_iff in Hm. destruct Hm as ([m sc] & Hfst & Hsim). simpl in Hfst. subst m.
    apply similar_in_ids in Hsim. tauto.
  - intros Hi. unfold historical_majority, similar. rewrite Hi. reflexivity.
Qed.

Lemma historical_majority_suggests_stored_label_witness :
  exists l, Some "Invoices" = Some l /\ l <> ""
            /\ In l (map fst [("Invoices", "Label_7")])
            /\ exists r, In r (labeled_emails
                                 (upsert_labeled_email stub_model empty_store invoice))
                         /\ applied_label r = l
                         /\ In (message_id r)
                              (ids (upsert_labeled_email stub_model empty_store invoice)).
Proof.
  exact (proj2 (proj2 (proj2
    (proj1 (historical_majority_suggests_stored_label stub_model first_row_search
              (upsert_labeled_email stub_model empty_store invoice)
              [("Invoices", "Label_7")] invoice_message [])
       _ eq_refl)))).
Defined.

(** ** The rejection-aware classifier before the chat model *)

Section Resuggest_tiers.

Variable E : Embedder.
Variable LLM : Type.
Variable ollama_chat : LLM -> Prompt -> LLM * result string.
Variable decode_suggested_label : string -> result string.

Lemma llm_suggestion_some (msg : Message) (id_by_name : dict string) (suggested : string)
  (s : Suggestion) :
  llm_suggestion msg id_by_name suggested = Some s ->
  suggested_label s = Some suggested /\ suggested <> "" /\ source s = Some llm.
Proof.
  unfold llm_suggestion. destruct (suggested =? "") eqn:He; [discriminate|].
  intros H. inversion H. simpl. apply String.eqb_neq in He. auto.
Qed.

Lemma generative_with_rejected_some (chat chat' : LLM) (msg : Message)
  (label_names : list string) (id_by_name : dict string) (rejected : list string)
  (s : Suggestion) :
  generative_with_rejected LLM ollama_chat decode_suggested_label chat msg label_names
    id_by_name rejected = (chat', Some s) ->
  exists l, suggested_label s = Some l /\ l <> "" /\ source s = Some llm.
Proof.
  unfold generative_with_rejected.
  destruct (ollama_chat chat _) as [chat1 [content1|e1]]; [|discriminate].
  destruct (decode_suggested_label content1) as [first|e]; [|discriminate].
  destruct (mem first rejected).
  - destruct (ollama_chat chat1 _) as [chat2 [content2|e2]]; [|discriminate].
    destruct (decode_suggested_label content2) as [second|e]; [|discriminate].
    intros H. inversion H as [[Hc Hs]].
    apply llm_suggestion_some in Hs. exists second. exact Hs.
  - intros H. inversion H as [[Hc Hs]].
    apply llm_suggestion_some in Hs. exists first. exact Hs.
Qed.

(** X10.  Every suggestion of [_classify_single_email_with_rejected] carries a
    non-empty label.  One that comes from the centroids or from the stored
    label of the message is never a rejected label and is given without asking
    the chat model; only a suggestion of source [llm] can be otherwise. *)
Theorem rejected_suggestions_excluded_before_llm (st : MemoryStore) (chat chat' : LLM)
  (msg : Message) (label_names : list string) (id_by_name : dict string)
  (rejected : list string) (threshold : R) (s : Suggestion) :
  _classify_single_email_with_rejected E LLM ollama_chat decode_suggested_label st chat
    msg label_names id_by_name rejected threshold = (chat', Some s) ->
  exists l,
    suggested_label s = Some l /\ l <> ""
    /\ (source s = Some llm
        \/ ((source s = Some centroid \/ source s = Some memory)
            /\ ~ In l rejected /\ chat' = chat)).
Proof.
  unfold _classify_single_email_with_rejected.
  destruct (fst (centroid_scoring_rejected E st msg label_names threshold)) as [b|] eqn:Hb.
  - simpl. destruct (negb (b =? "")) eqn:Hne; simpl.
    + destruct (mem b rejected) eqn:Hm; simpl.
      * destruct (get_label_for_message st (msg_id msg)) as [ml|] eqn:Hml; simpl.
        -- destruct (negb (ml =? "")) eqn:Hne'; simpl.
           ++ destruct (mem ml rejected) eqn:Hm'; simpl.
              ** intros H. apply generative_with_rejected_some in H.
                 destruct H as (l & H1 & H2 & H3). exists l. auto.
              ** intros H. inversion H; subst. simpl. exists ml.
                 apply negb_true_iff, String.eqb_neq in Hne'.
                 repeat split; auto. right. repeat split; auto.
                 intros Hin. apply mem_true_iff in Hin. congruence.
           ++ intros H. apply generative_with_rejected_some in H.
              destruct H as (l & H1 & H2 & H3). exists l. auto.
        -- intros H. apply generative_with_rejected_some in H.
           destruct H as (l & H1 & H2 & H3). exists l. auto.
      * intros H. inversion H; subst. simpl. exists b.
        apply negb_true_iff, String.eqb_neq in Hne.
        repeat split; auto. right. repeat split; auto.
        intros Hin. apply mem_true_iff in Hin. congruence.
    + destruct (get_label_for_message st (msg_id msg)) as [ml|] eqn:Hml; simpl.
      * destruct (negb (ml =? "")) eqn:Hne'; simpl.
        -- destruct (mem ml rejected) eqn:Hm'; simpl.
           ++ intros H. apply generative_with_rejected_some in H.
              destruct H as (l & H1 & H2 & H3). exists l. auto.
           ++ intros H. inversion H; subst. simpl. exists ml.
              apply negb_true_iff, String.eqb_neq in Hne'.
              repeat split; auto. right. repeat split; auto.
              intros Hin. apply mem_true_iff in Hin. congruence.
        -- intros H. apply generative_with_rejected_some in H.
           destruct H as (l & H1 & H2 & H3). exists l. auto.
      * intros H. apply generative_with_rejected_some in H.
        destruct H as (l & H1 & H2 & H3). exists l. auto.
  - simpl. destruct (get_label_for_message st (msg_id msg)) as [ml|] eqn:Hml; simpl.
    + destruct (negb (ml =? "")) eqn:Hne'; simpl.
      * destruct (mem ml rejected) eqn:Hm'; simpl.
        -- intros H. apply generative_with_rejected_some in H.
           destruct H as (l & H1 & H2 & H3). exists l. auto.
        -- intros H. inversion H; subst. simpl. exists ml.
           apply negb_true_iff, String.eqb_neq in Hne'.
           repeat split; auto. right. repeat split; auto.
           intros Hin. apply mem_true_iff in Hin. congruence.
      * intros H. apply generative_with_rejected_some in H.
        destruct H as (l & H1 & H2 & H3). exists l. auto.
    + intros H. apply generative_with_rejected_some in H.
      destruct H as (l & H1 & H2 & H3). exists l. auto.
Qed.

End Resuggest_tiers.

Lemma rejected_suggestions_excluded_before_llm_witness :
  exists l,
    Some "Invoices" = Some l /\ l <> ""
    /\ (Some memory = Some llm
        \/ ((Some memory = Some centroid \/ Some memory = Some memory)
            /\ ~ In l ["A"] /\ 0%nat = 0%nat)).
Proof.
  exact (rejected_suggestions_excluded_before_llm stub_model nat stubborn_chat decode_plain
           {| labeled_emails := [invoice]; rejected_labels := []; index := []; ids := [] |}
           0%nat 0%nat invoice_message [] [] ["A"] 0.35
           {| message := invoice_message; suggested_label := Some "Invoices";
              label_id := None; source := Some memory; scores := [] |}
           eq_refl).
Defined.

(** ** The two ways of picking the best label *)

Lemma best_above_from (thr : R) (rest : list (string * R)) (l0 : string) (s0 : R) :
  best_above thr rest
    (if Rge_dec s0 thr then if Rgt_dec s0 0 then Some l0 else None else None)
    (if Rge_dec s0 thr then if Rgt_dec s0 0 then s0 else 0 else 0)
  = if Rge_dec (snd (max_from (l0, s0) rest)) thr then
      if Rgt_dec (snd (max_from (l0, s0) rest)) 0 then Some (fst (max_from (l0, s0) rest))
      else None
    else None.
Proof.
  revert l0 s0. induction rest as [|[l s] rest IH]; intros l0 s0.
  - simpl. destruct (Rge_dec s0 thr); destruct (Rgt_dec s0 0); reflexivity.
  - simpl max_from. simpl best_above.
    destruct (Rgt_dec s s0) as [Hgt|Hle].
    + rewrite <- (IH l s).
      destruct (Rge_dec s0 thr) as [H0|H0]; destruct (Rgt_dec s0 0) as [P0|P0];
        destruct (Rge_dec s thr) as [Hs|Hs]; destruct (Rgt_dec s 0) as [Ps|Ps];
        repeat match goal with
               | |- context [Rgt_dec ?a ?b] => destruct (Rgt_dec a b)
               end;
        try reflexivity; exfalso; lra.
    + rewrite <- (IH l0 s0).
      destruct (Rge_dec s0 thr) as [H0|H0]; destruct (Rgt_dec s0 0) as [P0|P0];
        destruct (Rge_dec s thr) as [Hs|Hs];
        repeat match goal with
               | |- context [Rgt_dec ?a ?b] => destruct (Rgt_dec a b)
               end;
        try reflexivity; exfalso; lra.
Qed.

(** X11.  The loop that picks the best label in
    [_classify_single_email_with_rejected] returns the first label of maximal
    score, as [max] does in the other classifiers, provided that score reaches
    the threshold and is positive; otherwise it returns no label. *)
Theorem best_above_is_thresholded_maximum (threshold : R) (score_map : dict R) :
  best_above threshold score_map None 0.0
  = match max_item score_map with
    | Some (best_label, best_score) =>
        if Rge_dec best_score threshold then
          if Rgt_dec best_score 0 then Some best_label else None
        else None
    | None => None
    end.
Proof.
  destruct score_map as [|[l0 s0] rest]; [reflexivity|].
  simpl max_item.
  pose proof (best_above_from threshold rest l0 s0) as H.
  destruct (max_from (l0, s0) rest) as [bl bs] eqn:Hmax. simpl in H. rewrite <- H.
  simpl best_above.
  assert (Hz : 0.0 = 0) by lra. rewrite !Hz.
  destruct (Rgt_dec s0 0) as [P0|P0]; destruct (Rge_dec s0 threshold) as [H0|H0];
    reflexivity.
Qed.

(** ** The single-email classifier next to [node_classify] *)

Section Single_email.

Variable E : Embedder.
Variable faiss_search : list vec -> vec -> nat -> list (R * option nat).

(** The tiers of [node_classify], when they return, written with the
    functions of [_classify_single_email]. *)
Lemma classify_message_as_single (st : MemoryStore) (labels_api : list (string * string))
  (state_thr : option R) (msg : Message) (t : Tiers) :
  classify_message E faiss_search st labels_api state_thr msg = Ok t ->
  let found := Single.centroid_scoring E st msg (map fst labels_api)
                 (score_threshold state_thr) in
  t = if truthy (fst found) then
        Resolved {| message := msg; suggested_label := fst found;
                    label_id := match fst found with
                                | Some l => dict_get (id_by_name_of labels_api) l
                                | None => None
                                end;
                    source := Some centroid; scores := top_scores (snd found) |}
      else historical_majority E faiss_search st labels_api msg (snd found).
Proof.
  unfold classify_message, centroid_scoring, Single.centroid_scoring.
  destruct (get_label_centroids E st) as [|kc cs] eqn:Hc.
  - simpl. intros H. inversion H. reflexivity.
  - rewrite get_rejected_spec.
    destruct (similar_rejected_labels E _ 0.7 (rejected_labels st)); [|discriminate].
    simpl bind. rewrite score_all_eq.
    destruct (max_item _) as [[bl bs]|].
    + destruct (Rge_dec bs (score_threshold state_thr)); simpl;
        [destruct (bl =? "")|]; simpl; intros H; inversion H; reflexivity.
    + simpl. intros H. inversion H. reflexivity.
Qed.

(** X12.  Whenever the loop body of [node_classify] returns for a message,
    [_classify_single_email] with the same labels and threshold decides the
    same in its first two tiers: the same label, label id and scores, under
    the source [embedding] where [node_classify] says [centroid], or the same
    hand-over to the generative tier.  The single-email classifier does not
    read the table of rejected labels. *)
Theorem single_email_agrees_with_node_classify (st : MemoryStore)
  (labels_api : list (string * string)) (state_thr : option R) (msg : Message)
  (t : Tiers) :
  classify_message E faiss_search st labels_api state_thr msg = Ok t ->
  let single (t' : MemoryStore) :=
    Single._classify_single_email E faiss_search t' msg (map fst labels_api)
      (id_by_name_of labels_api) (score_threshold state_thr) in
  match t, single st with
  | Resolved s, Single.Resolved s' =>
      Single.message s' = message s
      /\ Single.suggested_label s' = suggested_label s
      /\ Single.label_id s' = label_id s
      /\ Single.scores s' = scores s
      /\ ((source s = Some centroid /\ Single.source s' = "embedding")
          \/ (source s = Some memory_similar /\ Single.source s' = "memory_similar"))
  | Generative similar_examples, Single.Generative similar_examples' =>
      similar_examples' = similar_examples
  | _, _ => False
  end
  /\ forall rejected,
       single {| labeled_emails := labeled_emails st; rejected_labels := rejected;
                 index := index st; ids := ids st |} = single st.
Proof.
  intros H single. split.
  - apply classify_message_as_single in H. cbv zeta in H. subst t.
    unfold single, Single._classify_single_email.
    destruct (truthy (fst (Single.centroid_scoring E st msg (map fst labels_api)
                             (score_threshold state_thr)))).
    + simpl. repeat split. left. split; reflexivity.
    + unfold historical_majority. rewrite <- single_majority_eq.
      destruct (truthy _ && _).
      * simpl. repeat split. right. split; reflexivity.
      * reflexivity.
  - intros rejected. reflexivity.
Qed.

End Single_email.

Lemma single_email_agrees_with_node_classify_witness :
  exists s',
    Single._classify_single_email stub_model empty_search store_A blank_message
      (map fst labels_A) (id_by_name_of labels_A) (score_threshold None)
    = Single.Resolved s'
    /\ Single.suggested_label s' = Some "A" /\ Single.source s' = "embedding".
Proof.
  destruct (store_A_blank_resolved None) as [sc Hsc].
  - unfold score_threshold. lra.
  - pose proof (proj1 (single_email_agrees_with_node_classify stub_model empty_search
                         store_A labels_A None blank_message _ Hsc)) as H.
    cbv zeta in H.
    destruct (Single._classify_single_email stub_model empty_search store_A blank_message
                (map fst labels_A) (id_by_name_of labels_A) (score_threshold None))
      as [s'|ex]; [|contradiction].
    exists s'. destruct H as (_ & Hl & _ & _ & [[_ Hs]|[Hs _]]).
    + split; [reflexivity|]. split; [exact Hl | exact Hs].
    + simpl in Hs. discriminate.
Defined.

(** * Further properties of the server *)

Section Apply_endpoint.

Variable gmail_ensure_label : string -> result string.
Variable gmail_apply_label : string -> string -> result bool.

Lemma apply_approved_loop_spec (approvals : dict Decision) (st : MemoryStore) (n : nat) :
  (apply_approved_loop gmail_ensure_label gmail_apply_label approvals st n = (st, Ok n)
   /\ forall m d, In (m, d) approvals -> approved d = true ->
                  truthy (final_label d) = false)
  \/ exists e st' m d l,
       apply_approved_loop gmail_ensure_label gmail_apply_label approvals st n
       = (st', Raise e)
       /\ In (m, d) approvals /\ approved d = true /\ final_label d = Some l /\ l <> ""
       /\ (st' = st \/ st' = fst (mark_email_processed st m l true)).
Proof.
  induction approvals as [|[m0 d0] rest IH]; simpl.
  - left. split; [reflexivity|]. intros m d [].
  - assert (Hskip :
      (approved d0 = true -> truthy (final_label d0) = false) ->
      (apply_approved_loop gmail_ensure_label gmail_apply_label rest st n = (st, Ok n)
       /\ forall m d, In (m, d) ((m0, d0) :: rest) -> approved d = true ->
                      truthy (final_label d) = false)
      \/ exists e st' m d l,
           apply_approved_loop gmail_ensure_label gmail_apply_label rest st n
           = (st', Raise e)
           /\ In (m, d) ((m0, d0) :: rest) /\ approved d = true
           /\ final_label d = Some l /\ l <> ""
           /\ (st' = st \/ st' = fst (mark_email_processed st m l true))).
    { intros Hd0. destruct IH as [[Heq Hno]|(e & st' & m & d & l & Heq & Hin & H)].
      - left. split; [exact Heq|]. intros m d [Hmd|Hmd] Ha.
        + inversion Hmd; subst. auto.
        + eauto.
      - right. exists e, st', m, d, l. split; [exact Heq|]. split; [right; exact Hin|].
        exact H. }
    destruct (approved d0) eqn:Ha; [|apply Hskip; discriminate].
    destruct (final_label d0) as [l0|] eqn:Hl; [|apply Hskip; reflexivity].
    destruct (l0 =? "") eqn:He.
    { apply Hskip. intros _. simpl. rewrite He. reflexivity. }
    apply String.eqb_neq in He. right.
    destruct (gmail_ensure_label l0) as [lid|e].
    + destruct (gmail_apply_label m0 lid) as [ok|e].
      * exists (NameError "logger"), (fst (mark_email_processed st m0 l0 true)), m0, d0, l0.
        repeat split; auto.
      * exists e, st, m0, d0, l0. repeat split; auto.
    + exists e, st, m0, d0, l0. repeat split; auto.
Qed.

(** X13.  [POST /api/suggestions/apply] never reports an applied label.  It
    answers 200 with [applied_count] 0 and an untouched store when no decision
    is an approval with a label; otherwise it answers 500, and the store is
    either untouched or holds one such decision as processed, and no more than
    that one. *)
Theorem apply_approved_labels_never_counts (approvals : dict Decision) (st : MemoryStore) :
  let outcome := apply_approved_labels gmail_ensure_label gmail_apply_label approvals st in
  (outcome = (st, Http200 0%nat)
   /\ forall m d, In (m, d) approvals -> approved d = true ->
                  truthy (final_label d) = false)
  \/ (snd outcome = HttpError 500
      /\ exists m d l,
           In (m, d) approvals /\ approved d = true /\ final_label d = Some l /\ l <> ""
           /\ (fst outcome = st \/ fst outcome = fst (mark_email_processed st m l true))).
Proof.
  intros outcome. unfold outcome, apply_approved_labels.
  destruct (apply_approved_loop_spec approvals st 0)
    as [[Heq Hno]|(e & st' & m & d & l & Heq & H)]; rewrite Heq.
  - left. split; [reflexivity | exact Hno].
  - right. split; [reflexivity|]. exists m, d, l. exact H.
Qed.

End Apply_endpoint.

Lemma apply_approved_labels_never_counts_witness :
  snd (apply_approved_labels gmail_ensure_ok gmail_apply_ok approve_m1 empty_store)
  = HttpError 500.
Proof.
  destruct (apply_approved_labels_never_counts gmail_ensure_ok gmail_apply_ok approve_m1
              empty_store) as [(_ & Hno)|(H & _)].
  - specialize (Hno "m1" _ (or_introl eq_refl) eq_refl). discriminate.
  - exact H.
Defined.

(** ** The statistics after a decision *)

Lemma filter_other_ids (mid : string) (rows : list LabeledEmail) :
  ~ In mid (map message_id rows) ->
  filter (fun r => negb (message_id r =? mid)) rows = rows.
Proof.
  induction rows as [|r rs IH]; simpl; intros H; [reflexivity|].
  destruct (message_id r =? mid) eqn:Hr.
  - apply String.eqb_eq in Hr. exfalso. apply H. left. exact Hr.
  - simpl. f_equal. apply IH. intros Habs. apply H. right. exact Habs.
Qed.

Lemma upsert_row_new (email : LabeledEmail) (rows : list LabeledEmail) :
  ~ In (message_id email) (map message_id rows) ->
  upsert_row email rows = rows ++ [email].
Proof.
  induction rows as [|r rs IH]; simpl; intros H; [reflexivity|].
  destruct (message_id r =? message_id email) eqn:Hr.
  - apply String.eqb_eq in Hr. exfalso. apply H. left. exact Hr.
  - f_equal. apply IH. intros Habs. apply H. right. exact Habs.
Qed.

Lemma get_stats_append (st st' : MemoryStore) (row : LabeledEmail) :
  labeled_emails st' = labeled_emails st ++ [row] ->
  get_stats st'
  = let '(total, approved_emails, rejected) := get_stats st in
    if accepted row then (total + 1, approved_emails + 1, rejected)%nat
    else (total + 1, approved_emails, rejected + 1)%nat.
Proof.
  intros H. unfold get_stats. rewrite H, filter_app, !length_app. simpl.
  pose proof (filter_length_le accepted (labeled_emails st)) as Hle.
  destruct (accepted row); simpl; (apply f_equal2; [apply f_equal2|]); lia.
Qed.

Section Stats.

Variable E : Embedder.
Variable gmail_get_message_by_id : string -> result Message.
Variable approvals : dict Decision.

(** X14.  A decision on a message that was not processed before adds one to
    [total_processed] of [GET /api/stats], and one to [approved] when it is an
    approval, one to [rejected] when it is a rejection: a rejected suggestion
    is counted from the row that [mark_email_processed] writes for it. *)
Theorem decision_counts_in_stats (st : MemoryStore) (s : Suggestion) (mid l : string)
  (d : Decision) :
  msg_id (message s) = Some mid ->
  dict_get approvals mid = Some d ->
  py_or (final_label d) (suggested_label s) = Some l ->
  l <> "" ->
  ~ In mid (get_processed_email_ids st) ->
  get_stats (apply_suggestion E gmail_get_message_by_id approvals st s)
  = let '(total, approved_emails, rejected) := get_stats st in
    if approved d then (total + 1, approved_emails + 1, rejected)%nat
    else (total + 1, approved_emails, rejected + 1)%nat.
Proof.
  intros Hid Hd Hl Hne Hnew. rewrite processed_iff in Hnew.
  destruct (approved d) eqn:Ha.
  - destruct (apply_suggestion_approved E gmail_get_message_by_id approvals st s mid l d
                Hid Hd Ha Hl Hne) as [msg Hmsg].
    rewrite Hmsg.
    apply (get_stats_append st _
             {| message_id := mid; subject := None; sender := None; snippet := None;
                applied_label := l; accepted := true |}).
    simpl. rewrite (proj1 (upsert_tables E st _)).
    rewrite upsert_row_new by exact Hnew.
    unfold insert_or_replace. rewrite filter_app. simpl.
    rewrite String.eqb_refl. simpl.
    rewrite filter_other_ids by exact Hnew. rewrite app_nil_r. reflexivity.
  - destruct (apply_suggestion_rejected E gmail_get_message_by_id approvals st s mid l d
                Hid Hd Ha Hl Hne) as [msg Hmsg].
    rewrite Hmsg.
    apply (get_stats_append st _
             {| message_id := mid; subject := None; sender := None; snippet := None;
                applied_label := l; accepted := false |}).
    simpl. unfold insert_or_replace. simpl.
    rewrite filter_other_ids by exact Hnew. reflexivity.
Qed.

End Stats.

Lemma decision_counts_in_stats_witness :
  get_stats (apply_suggestion stub_model no_gmail reject_m1 store_A
               (suggestion_for invoice_message "Spam"))
  = (2, 1, 1)%nat.
Proof.
  refine (decision_counts_in_stats stub_model no_gmail reject_m1 store_A
            (suggestion_for invoice_message "Spam") "m1" "Spam"
            {| approved := false; final_label := None |} _ _ _ _ _).
  - reflexivity.
  - reflexivity.
  - reflexivity.
  - discriminate.
  - simpl. intros [H|[]]. discriminate.
Defined.

(** ** A similar rejection and the whole batch *)

Section Batch_failure.

Variable E : Embedder.
Variable faiss_search : list vec -> vec -> nat -> list (R * option nat).

Lemma node_classify_ok_each (st : MemoryStore) (labels_api : list (string * string))
  (state_thr : option R) (messages : list Message) (outcomes : list (Message * Tiers)) :
  node_classify E faiss_search st labels_api state_thr messages = Ok outcomes ->
  map fst outcomes = filter (fun msg => truthy (msg_id msg)) messages
  /\ forall msg t, In (msg, t) outcomes ->
       classify_message E faiss_search st labels_api state_thr msg = Ok t.
Proof.
  revert outcomes. induction messages as [|msg rest IH]; simpl; intros outcomes H.
  - inversion H. split; [reflexivity|]. intros m t [].
  - destruct (truthy (msg_id msg)); [|apply IH; exact H].
    destruct (classify_message E faiss_search st labels_api state_thr msg) as [t0|e] eqn:Hc;
      [|discriminate].
    simpl in H.
    destruct (node_classify E faiss_search st labels_api state_thr rest) as [ts|e];
      [|discriminate].
    simpl in H. inversion H; subst outcomes.
    destruct (IH ts eq_refl) as [IH1 IH2]. split.
    + simpl. f_equal. exact IH1.
    + intros m t [Hin|Hin]; [inversion Hin; subst; exact Hc | auto].
Qed.

(** X15.  The loop of [node_classify] classifies exactly the messages that
    have an id, in their order, and it has no handler of its own: with at least
    one stored example, a single message with an id that is similar to a
    stored rejection makes the whole batch end with the [NameError] of
    [get_rejected_labels_for_similar_emails], whatever the other messages
    are. *)
Theorem similar_rejection_fails_the_batch (st : MemoryStore)
  (labels_api : list (string * string)) (state_thr : option R)
  (messages : list Message) :
  (forall outcomes,
      node_classify E faiss_search st labels_api state_thr messages = Ok outcomes ->
      map fst outcomes = filter (fun msg => truthy (msg_id msg)) messages)
  /\ (forall msg,
        In msg messages ->
        truthy (msg_id msg) = true ->
        labeled_emails st <> [] ->
        similar_rejected_labels E
          (_embed E (join_fields [get_default (msg_subject msg) "";
                                  get_default (msg_from msg) "";
                                  get_default (msg_snippet msg) ""]))
          0.7 (rejected_labels st) <> [] ->
        node_classify E faiss_search st labels_api state_thr messages
        = Raise (NameError "logger")).
Proof.
  split.
  - intros outcomes H. apply (node_classify_ok_each _ _ _ _ _ H).
  - intros msg Hin Hid Hrows Hsim.
    pose proof (similar_rejection_aborts_classification E faiss_search st labels_api
                  state_thr msg Hrows Hsim) as Hraise.
    destruct (node_classify E faiss_search st labels_api state_thr messages)
      as [outcomes|e] eqn:Hn.
    + exfalso. destruct (node_classify_ok_each _ _ _ _ _ Hn) as [Hmap Heach].
      assert (Hm : In msg (map fst outcomes)).
      { rewrite Hmap. apply filter_In. auto. }
      apply in_map_iff in Hm. destruct Hm as ([m t] & Hfst & Ht). simpl in Hfst. subst m.
      rewrite (Heach msg t Ht) in Hraise. discriminate.
    + f_equal. clear Hin Hid Hsim Hraise msg.
      revert e Hn. induction messages as [|m rest IH]; simpl; intros e Hn; [discriminate|].
      destruct (truthy (msg_id m)); [|apply IH; exact Hn].
      destruct (classify_message E faiss_search st labels_api state_thr m) as [t0|e0] eqn:Hc.
      * simpl in Hn.
        destruct (node_classify E faiss_search st labels_api state_thr rest) as [ts|e1];
          [discriminate|].
        simpl in Hn. inversion Hn; subst. apply IH. reflexivity.
      * simpl in Hn. inversion Hn; subst.
        unfold classify_message, centroid_scoring in Hc.
        destruct (get_label_centroids E st); [discriminate|].
        rewrite get_rejected_spec in Hc.
        destruct (similar_rejected_labels E _ 0.7 (rejected_labels st)).
        -- simpl in Hc. destruct (max_item _) as [[bl bs]|]; [|discriminate].
           destruct (Rge_dec bs (score_threshold state_thr)); simpl in Hc;
             [destruct (negb (bl =? ""))|]; discriminate.
        -- simpl in Hc. inversion Hc. reflexivity.
Qed.

End Batch_failure.

Lemma similar_rejection_fails_the_batch_witness :
  node_classify stub_model empty_search
    {| labeled_emails := [processed_A]; rejected_labels := [invoice_rejection];
       index := []; ids := [] |}
    labels_A None [blank_message; invoice_message]
  = Raise (NameError "logger").
Proof.
  refine (proj2 (similar_rejection_fails_the_batch stub_model empty_search
                   {| labeled_emails := [processed_A];
                      rejected_labels := [invoice_rejection];
                      index := []; ids := [] |}
                   labels_A None [blank_message; invoice_message])
            invoice_message _ _ _ _).
  - right. left. reflexivity.
  - reflexivity.
  - discriminate.
  - intros Habs.
    assert (Hin : In (rejected_label invoice_rejection)
                    (similar_rejected_labels stub_model (normalize (basis 1)) 0.7
                       [invoice_rejection])).
    { apply (similar_rejected_in stub_model (normalize (basis 1)) 0.7 1).
      - left. reflexivity.
      - change (similarity (normalize (basis 1)) (normalize (basis 1)) = Some 1).
        apply similarity_self. apply dot_normalize_basis_pos.
      - lra. }
    change (similar_rejected_labels stub_model (normalize (basis 1)) 0.7
              [invoice_rejection] = []) in Habs.
    rewrite Habs in Hin. contradiction.
Defined.

(** * Further properties of the displayed scores and of the row order *)

(** ** Rounding *)

Lemma round_half_even_IZR (z : Z) : round_half_even (IZR z) = z.
Proof.
  unfold round_half_even.
  assert (H : Int_part (IZR z) = z) by (symmetry; apply Int_part_spec; lra).
  rewrite H. destruct (Rlt_dec (IZR z - IZR z) (1 / 2)) as [_|Hn]; [reflexivity|].
  exfalso. apply Hn. lra.
Qed.

Lemma round_half_even_near (x : R) : Rabs (IZR (round_half_even x) - x) <= 1 / 2.
Proof.
  unfold round_half_even.
  destruct (base_Int_part x) as [Hlo Hhi].
  set (n := Int_part x) in *.
  destruct (Rlt_dec (x - IZR n) (1 / 2)) as [H1|H1].
  - apply Rabs_le. lra.
  - destruct (Rlt_dec (1 / 2) (x - IZR n)) as [H2|H2].
    + rewrite plus_IZR. apply Rabs_le. lra.
    + destruct (Z.even n); [|rewrite plus_IZR]; apply Rabs_le; lra.
Qed.

(** A number with one decimal is its own rounding. *)
Lemma round_tenths (z : Z) : round (IZR z / 10) 1 = IZR z / 10.
Proof.
  unfold round. rewrite pow_1.
  replace (IZR z / 10 * 10) with (IZR z) by (field; lra).
  rewrite round_half_even_IZR. reflexivity.
Qed.

Lemma round_near (x : R) : Rabs (round x 1 - x) <= 1 / 20.
Proof.
  unfold round. rewrite pow_1.
  pose proof (round_half_even_near (x * 10)) as H.
  assert (H' : - (1 / 2) <= IZR (round_half_even (x * 10)) - x * 10 <= 1 / 2).
  { unfold Rabs in H. destruct (Rcase_abs _) in H; lra. }
  apply Rabs_le. lra.
Qed.

(** ** The ten best scores *)

Lemma insert_desc_perm (kv : string * R) (l : list (string * R)) :
  Permutation (kv :: l) (insert_desc kv l).
Proof.
  induction l as [|kv' r IH]; simpl; [reflexivity|].
  destruct (Rgt_dec (snd kv') (snd kv)); [|reflexivity].
  rewrite perm_swap. apply perm_skip. exact IH.
Qed.

Lemma sorted_desc_perm (d : dict R) : Permutation d (sorted_desc d).
Proof.
  induction d as [|kv d IH]; simpl; [constructor|].
  rewrite <- insert_desc_perm. apply perm_skip. exact IH.
Qed.

Lemma insert_desc_sorted (kv : string * R) (l : list (string * R)) :
  StronglySorted (fun a b => snd a >= snd b) l ->
  StronglySorted (fun a b => snd a >= snd b) (insert_desc kv l).
Proof.
  induction l as [|kv' r IH]; simpl; intros H.
  - repeat constructor.
  - apply StronglySorted_inv in H. destruct H as [Hr Hall].
    destruct (Rgt_dec (snd kv') (snd kv)) as [Hgt|Hle].
    + constructor; [apply IH; exact Hr|].
      apply Forall_forall. intros a Ha.
      apply (Permutation_in _ (Permutation_sym (insert_desc_perm kv r))) in Ha.
      destruct Ha as [Ha|Ha]; [subst a; lra|].
      rewrite Forall_forall in Hall. apply Hall. exact Ha.
    + constructor; [constructor; assumption|].
      constructor; [lra|].
      eapply Forall_impl; [|exact Hall]. intros a Ha. simpl in Ha. lra.
Qed.

Lemma sorted_desc_sorted (d : dict R) :
  StronglySorted (fun a b => snd a >= snd b) (sorted_desc d).
Proof.
  induction d as [|kv d IH]; simpl; [constructor|].
  apply insert_desc_sorted. exact IH.
Qed.

(** Stability: among the items of one value the order of the dictionary is
    kept. *)
Lemma insert_desc_filter (v : R) (kv : string * R) (l : list (string * R)) :
  StronglySorted (fun a b => snd a >= snd b) l ->
  filter (fun a => if Req_dec_T (snd a) v then true else false) (insert_desc kv l)
  = filter (fun a => if Req_dec_T (snd a) v then true else false) (kv :: l).
Proof.
  induction l as [|kv' r IH]; intros H; [reflexivity|].
  apply StronglySorted_inv in H. destruct H as [Hr Hall].
  simpl insert_desc.
  destruct (Rgt_dec (snd kv') (snd kv)) as [Hgt|Hle]; [|reflexivity].
  simpl. simpl in IH. rewrite (IH Hr).
  destruct (Req_dec_T (snd kv') v) as [H1|H1]; [|reflexivity].
  destruct (Req_dec_T (snd kv) v) as [H2|H2]; [lra | reflexivity].
Qed.

Lemma sorted_desc_stable (v : R) (d : dict R) :
  filter (fun a => if Req_dec_T (snd a) v then true else false) (sorted_desc d)
  = filter (fun a => if Req_dec_T (snd a) v then true else false) d.
Proof.
  induction d as [|kv d IH]; [reflexivity|].
  simpl sorted_desc. rewrite insert_desc_filter by apply sorted_desc_sorted.
  simpl. rewrite IH. reflexivity.
Qed.

Lemma dict_set_fresh {V : Type} (d : dict V) (k : string) (v : V) :
  ~ In k (keys d) -> dict_set d k v = d ++ [(k, v)].
Proof.
  induction d as [|[k0 v0] d IH]; simpl; intros H; [reflexivity|].
  destruct (k0 =? k) eqn:Hk.
  - apply String.eqb_eq in Hk. exfalso. apply H. left. exact Hk.
  - f_equal. apply IH. intros Habs. apply H. right. exact Habs.
Qed.

Lemma fold_dict_set_fresh {V W : Type} (f : W -> V) (l : list (string * W)) (acc : dict V) :
  NoDup (keys acc ++ map fst l) ->
  fold_left (fun d kv => dict_set d (fst kv) (f (snd kv))) l acc
  = acc ++ map (fun kv => (fst kv, f (snd kv))) l.
Proof.
  revert acc. induction l as [|[k w] l IH]; simpl; intros acc H.
  - rewrite app_nil_r. reflexivity.
  - rewrite dict_set_fresh.
    + rewrite IH.
      * rewrite <- app_assoc. reflexivity.
      * unfold keys. rewrite map_app. simpl. rewrite <- app_assoc. exact H.
    + apply NoDup_remove_2 in H. intros Habs. apply H. apply in_or_app. left. exact Habs.
Qed.

(** X16.  The scores that a suggestion of [node_classify] or of
    [_classify_single_email] carries are the ten best of the score map, or
    all of them when there are fewer: best first, no score that was left out
    exceeds one that was kept, and each is shown as a percentage with one
    decimal, less than a tenth away from the hundredfold of the score. *)
Theorem top_scores_are_rounded_best (score_map : dict R) :
  NoDup (keys score_map) ->
  exists kept dropped,
    top_scores score_map = map (fun kv => (fst kv, round (snd kv * 100) 1)) kept
    /\ Permutation score_map (kept ++ dropped)
    /\ List.length kept = Nat.min 10 (List.length score_map)
    /\ StronglySorted (fun a b => snd a >= snd b) kept
    /\ (forall kv kv', In kv kept -> In kv' dropped -> snd kv >= snd kv')
    /\ (forall kv, In kv kept ->
          Rabs (round (snd kv * 100) 1 - snd kv * 100) < 1 / 10
          /\ exists z, round (snd kv * 100) 1 = IZR z / 10).
Proof.
  intros Hnd.
  pose proof (sorted_desc_perm score_map) as Hperm.
  pose proof (sorted_desc_sorted score_map) as Hsorted.
  pose proof (firstn_skipn 10 (sorted_desc score_map)) as Hsplit.
  exists (firstn 10 (sorted_desc score_map)), (skipn 10 (sorted_desc score_map)).
  set (kept := firstn 10 (sorted_desc score_map)) in *.
  set (dropped := skipn 10 (sorted_desc score_map)) in *.
  assert (Hpair : StronglySorted (fun a b => snd a >= snd b) kept
                  /\ forall kv kv', In kv kept -> In kv' dropped -> snd kv >= snd kv').
  { rewrite <- Hsplit in Hsorted. clear Hsplit Hperm.
    induction kept as [|a kept IH]; simpl in Hsorted.
    - split; [constructor | intros kv kv' []].
    - apply StronglySorted_inv in Hsorted. destruct Hsorted as [Hrest Hall].
      destruct (IH Hrest) as [IH1 IH2]. split.
      + constructor; [exact IH1|].
        apply Forall_forall. intros b Hb. rewrite Forall_forall in Hall.
        apply Hall. apply in_or_app. left. exact Hb.
      + intros kv kv' [Hkv|Hkv] Hkv'.
        * subst kv. rewrite Forall_forall in Hall. apply Hall.
          apply in_or_app. right. exact Hkv'.
        * apply IH2; assumption. }
  split; [|split; [|split; [|split; [|split]]]].
  - unfold top_scores. fold kept.
    rewrite (fold_dict_set_fresh (fun v => round (v * 100) 1)); [reflexivity|].
    simpl. apply (NoDup_app_remove_r _ (map fst dropped)).
    rewrite <- map_app, Hsplit.
    apply (Permutation_NoDup (Permutation_map fst Hperm)). exact Hnd.
  - rewrite Hsplit. exact Hperm.
  - unfold kept. rewrite length_firstn, (Permutation_length Hperm). reflexivity.
  - apply Hpair.
  - apply Hpair.
  - intros kv _. split.
    + pose proof (round_near (snd kv * 100)) as Hnear. lra.
    + eexists. unfold round. rewrite pow_1. reflexivity.
Qed.

(** Two labels scored one half and one quarter: both are kept, the better one
    first, as [50.0] and [25.0]. *)
Lemma top_scores_are_rounded_best_witness :
  top_scores [("A", 1 / 4); ("B", 1 / 2)] = [("B", 50); ("A", 25)]
  /\ exists kept dropped,
       top_scores [("A", 1 / 4); ("B", 1 / 2)]
       = map (fun kv => (fst kv, round (snd kv * 100) 1)) kept
       /\ Permutation [("A", 1 / 4); ("B", 1 / 2)] (kept ++ dropped)
       /\ List.length kept = 2%nat.
Proof.
  split.
  - unfold top_scores, sorted_desc. simpl fold_right.
    destruct (Rgt_dec (1 / 2) (1 / 4)) as [_|Hn]; [|exfalso; apply Hn; lra].
    simpl.
    replace (1 / 2 * 100) with (IZR 500 / 10) by lra.
    replace (1 / 4 * 100) with (IZR 250 / 10) by lra.
    rewrite !round_tenths. repeat f_equal; lra.
  - destruct (top_scores_are_rounded_best [("A", 1 / 4); ("B", 1 / 2)])
      as (kept & dropped & Htop & Hperm & Hlen & _).
    + repeat constructor; simpl; intuition discriminate.
    + exists kept, dropped. split; [exact Htop|]. split; [exact Hperm | exact Hlen].
Defined.

(** ** The order of the rows of a lookup by ids *)

Lemma insert_by_id_perm (row : LabeledEmail) (rows : list LabeledEmail) :
  Permutation (row :: rows) (insert_by_id row rows).
Proof.
  induction rows as [|r rs IH]; simpl; [reflexivity|].
  destruct (String.leb (message_id row) (message_id r)); [reflexivity|].
  rewrite perm_swap. apply perm_skip. exact IH.
Qed.

Lemma order_by_id_perm (rows : list LabeledEmail) : Permutation rows (order_by_id rows).
Proof.
  induction rows as [|r rs IH]; simpl; [constructor|].
  rewrite <- insert_by_id_perm. apply perm_skip. exact IH.
Qed.

Lemma insert_by_id_sorted (row : LabeledEmail) (rows : list LabeledEmail) :
  Sorted (fun a b => String.leb (message_id a) (message_id b) = true) rows ->
  Sorted (fun a b => String.leb (message_id a) (message_id b) = true)
    (insert_by_id row rows).
Proof.
  induction rows as [|r rs IH]; simpl; intros H.
  - repeat constructor.
  - destruct (String.leb (message_id row) (message_id r)) eqn:Hle.
    + constructor; [exact H|]. constructor. exact Hle.
    + apply Sorted_inv in H. destruct H as [Hrs Hhd].
      constructor; [apply IH; exact Hrs|].
      destruct rs as [|r' rs']; simpl.
      * constructor. destruct (String.leb_total (message_id r) (message_id row)) as [Ht|Ht];
          [exact Ht | congruence].
      * destruct (String.leb (message_id row) (message_id r')).
        -- constructor.
           destruct (String.leb_total (message_id r) (message_id row)) as [Ht|Ht];
             [exact Ht | congruence].
        -- constructor. inversion Hhd. assumption.
Qed.

Lemma order_by_id_sorted (rows : list LabeledEmail) :
  Sorted (fun a b => String.leb (message_id a) (message_id b) = true) (order_by_id rows).
Proof.
  induction rows as [|r rs IH]; simpl; [constructor|].
  apply insert_by_id_sorted. exact IH.
Qed.

(** X17.  [get_messages_by_ids] returns the rows of the table whose id is in
    the list, each once per row of the table, ordered by message id; for an
    empty list it returns no row.  The order decides a tie of the majority
    vote: of two labels with one similar example each, the label of the
    example with the smaller message id wins, wherever the rows stand in the
    table and in the list of ids. *)
Theorem get_messages_by_ids_ordered (st : MemoryStore) (ids' : list string) :
  Permutation (get_messages_by_ids st ids')
    (filter (fun r => mem (message_id r) ids') (labeled_emails st))
  /\ (forall r, In r (get_messages_by_ids st ids')
                <-> In r (labeled_emails st) /\ In (message_id r) ids')
  /\ Sorted (fun a b => String.leb (message_id a) (message_id b) = true)
       (get_messages_by_ids st ids')
  /\ get_messages_by_ids st [] = []
  /\ (forall r1 r2,
        get_messages_by_ids st ids' = [r1; r2] ->
        applied_label r1 <> "" -> applied_label r2 <> "" ->
        majority_label_from_similar (get_messages_by_ids st ids') = Some (applied_label r1)).
Proof.
  assert (Hperm : Permutation (get_messages_by_ids st ids')
                    (filter (fun r => mem (message_id r) ids') (labeled_emails st))).
  { unfold get_messages_by_ids. destruct ids' as [|i is'].
    - replace (filter (fun r => mem (message_id r) []) (labeled_emails st))
        with (@nil LabeledEmail); [constructor|].
      induction (labeled_emails st) as [|r rs IH]; [reflexivity | exact IH].
    - apply Permutation_sym, order_by_id_perm. }
  split; [exact Hperm|]. split; [|split; [|split]].
  - intros r. split.
    + intros H. apply (Permutation_in _ Hperm) in H. apply filter_In in H.
      destruct H as [Hin Hm]. apply mem_true_iff in Hm. auto.
    + intros [Hin Hm]. apply (Permutation_in _ (Permutation_sym Hperm)).
      apply filter_In. split; [exact Hin | apply mem_true_iff; exact Hm].
  - unfold get_messages_by_ids. destruct ids'; [constructor | apply order_by_id_sorted].
  - reflexivity.
  - intros r1 r2 Heq H1 H2. rewrite Heq.
    unfold majority_label_from_similar. simpl.
    apply String.eqb_neq in H1, H2. rewrite H1, H2. simpl.
    destruct (applied_label r1 =? applied_label r2) eqn:He; reflexivity.
Qed.

(** The accepted invoice [m1] stands before the processed email [m0] in the
    table and in the list of ids; the lookup returns [m0] first, and the vote
    between the two labels goes to the label of [m0]. *)
Lemma get_messages_by_ids_ordered_witness :
  get_messages_by_ids store_tie ["m1"; "m0"] = [processed_A; invoice]
  /\ majority_label_from_similar (get_messages_by_ids store_tie ["m1"; "m0"]) = Some "A".
Proof.
  split; [reflexivity|].
  apply (proj2 (proj2 (proj2 (proj2 (get_messages_by_ids_ordered store_tie ["m1"; "m0"]))))
           processed_A invoice).
  - reflexivity.
  - discriminate.
  - discriminate.
Defined.
